(** * A stack virtual machine under two dispatch techniques

    Shallow embedding of [switched.c] (one [switch] per instruction) and
    [threaded.c] (one indirect [goto] through a table of labels per
    instruction), and the properties of the two engines.

    Layout:
    - [Word32]    : 32-bit words as [Z] with the wrap-around written out;
    - [Isa]       : the opcode enumeration and the cpu record;
    - [Exec]      : a state monad with C's [break], and the routines that the
                    two files share word for word ([fetch], [fetch_checked],
                    [decode], [push], [pop], the bodies of the handlers);
    - [Switched]  : the [while]/[switch] loop of switched.c;
    - [Threaded]  : the table of labels and the [goto]s of threaded.c;
    - the theorems. *)

From Stdlib Require Import ZArith List String Bool Lia.
Import ListNotations.
Local Open Scope Z_scope.

(* ------------------------------------------------------------------ *)
(** ** 32-bit words *)

Module Word32.

Definition modulus : Z := 4294967296.
Definition half_modulus : Z := 2147483648.

(** Conversion to [uint32_t]. *)
Definition wrap32 (x : Z) : Z := x mod modulus.

(** Conversion to [int32_t] (two's complement). *)
Definition sint32 (x : Z) : Z :=
  let y := wrap32 x in
  if y <? half_modulus then y else y - modulus.

End Word32.
Import Word32.

(* ------------------------------------------------------------------ *)
(** ** Instruction set and cpu state *)

(** common.h is not among the sources at hand.  Its two size macros and the
    sequence of values that libc's [rand] returns are parameters of the
    development. *)
Class platform : Type := {
  PROGRAM_SIZE : Z;      (* number of words of program memory *)
  STACK_CAPACITY : Z;    (* number of slots of the operand stack *)
  rand : nat -> Z        (* result of the n-th call of rand() *)
}.

Module Isa.

(** The enumerators of [Instr_t], in the order in which the table
    [service_routines] of threaded.c lists their labels: the table is indexed
    by the opcode, which fixes the numbering. *)
Inductive Instr_t : Type :=
| Instr_Break | Instr_Nop | Instr_Halt | Instr_Push | Instr_Print
| Instr_JNE | Instr_Swap | Instr_Dup | Instr_JE | Instr_Inc
| Instr_Add | Instr_Sub | Instr_Mul | Instr_Rand | Instr_Dec
| Instr_Drop | Instr_Over | Instr_Mod | Instr_Jump.

(** Value of an enumerator. *)
Definition code (i : Instr_t) : Z :=
  match i with
  | Instr_Break => 0 | Instr_Nop => 1 | Instr_Halt => 2 | Instr_Push => 3
  | Instr_Print => 4 | Instr_JNE => 5 | Instr_Swap => 6 | Instr_Dup => 7
  | Instr_JE => 8 | Instr_Inc => 9 | Instr_Add => 10 | Instr_Sub => 11
  | Instr_Mul => 12 | Instr_Rand => 13 | Instr_Dec => 14 | Instr_Drop => 15
  | Instr_Over => 16 | Instr_Mod => 17 | Instr_Jump => 18
  end.

(** The enumerator a word is equal to, if any: what the [case] labels of a
    [switch] over a word test. *)
Definition enumerator (w : Z) : option Instr_t :=
  match w with
  | 0 => Some Instr_Break | 1 => Some Instr_Nop | 2 => Some Instr_Halt
  | 3 => Some Instr_Push | 4 => Some Instr_Print | 5 => Some Instr_JNE
  | 6 => Some Instr_Swap | 7 => Some Instr_Dup | 8 => Some Instr_JE
  | 9 => Some Instr_Inc | 10 => Some Instr_Add | 11 => Some Instr_Sub
  | 12 => Some Instr_Mul | 13 => Some Instr_Rand | 14 => Some Instr_Dec
  | 15 => Some Instr_Drop | 16 => Some Instr_Over | 17 => Some Instr_Mod
  | 18 => Some Instr_Jump
  | _ => None
  end.

Inductive cpu_state_t : Type := Cpu_Running | Cpu_Halted | Cpu_Break.

Definition is_running (s : cpu_state_t) : bool :=
  match s with Cpu_Running => true | _ => false end.

(** What the process writes to standard output: the value of a [Print]
    instruction ([printf("[%d]\n", tmp1)], a signed decimal) or one of the
    diagnostic lines. *)
Inductive event : Type :=
| Printed (v : Z)
| Diag (msg : string).

(** [decode_t] *)
Record decode_t : Type := mk_decode {
  opcode : Z;
  length : Z;
  immediate : Z      (* int32_t *)
}.

(** The fields of [cpu_t], followed by the two pieces of the process state
    the engine touches: the lines written so far and the number of calls of
    [rand] made so far. *)
Record machine : Type := mk_machine {
  pc : Z;                   (* uint32_t *)
  sp : Z;                   (* int32_t *)
  state : cpu_state_t;
  steps : Z;                (* long long; at most max(1, steplimit) *)
  stack : list Z;           (* uint32_t stack[STACK_CAPACITY] *)
  pmem : list Z;            (* const Instr_t * *)
  stdout : list event;
  rand_calls : nat
}.

Definition set_pc (v : Z) (m : machine) : machine :=
  mk_machine v (sp m) (state m) (steps m) (stack m) (pmem m) (stdout m) (rand_calls m).
Definition set_sp (v : Z) (m : machine) : machine :=
  mk_machine (pc m) v (state m) (steps m) (stack m) (pmem m) (stdout m) (rand_calls m).
Definition set_state (v : cpu_state_t) (m : machine) : machine :=
  mk_machine (pc m) (sp m) v (steps m) (stack m) (pmem m) (stdout m) (rand_calls m).
Definition set_steps (v : Z) (m : machine) : machine :=
  mk_machine (pc m) (sp m) (state m) v (stack m) (pmem m) (stdout m) (rand_calls m).
Definition set_stack (v : list Z) (m : machine) : machine :=
  mk_machine (pc m) (sp m) (state m) (steps m) v (pmem m) (stdout m) (rand_calls m).
Definition set_stdout (v : list event) (m : machine) : machine :=
  mk_machine (pc m) (sp m) (state m) (steps m) (stack m) (pmem m) v (rand_calls m).
Definition set_rand_calls (v : nat) (m : machine) : machine :=
  mk_machine (pc m) (sp m) (state m) (steps m) (stack m) (pmem m) (stdout m) v.

(** [a[i] = v] on an array held as a list; the engine only writes inside the
    array (see [Exec.push]), outside it the list is left as it is. *)
Fixpoint array_set (i : nat) (v : Z) (a : list Z) : list Z :=
  match a, i with
  | [], _ => []
  | _ :: t, O => v :: t
  | h :: t, S j => h :: array_set j v t
  end.

(** [a[i]]; an initialiser shorter than the array leaves the remaining
    elements zero, which is the default here. *)
Definition array_get (i : Z) (a : list Z) : Z := nth (Z.to_nat i) a 0.

(** The stack from the top down to the bottom, [stack[sp]], ..., [stack[0]]:
    the order in which the final report of [main] prints it. *)
Definition stack_dump (m : machine) : list Z :=
  rev (firstn (Z.to_nat (sp m + 1)) (stack m)).

(** [cpu_t cpu = {.pc = 0, .sp = -1, .state = Cpu_Running, .steps = 0,
    .stack = {0}, .pmem = program}] in a process that has written nothing. *)
Definition init `{platform} (program : list Z) : machine :=
  {| pc := 0; sp := -1; state := Cpu_Running; steps := 0;
     stack := repeat 0 (Z.to_nat STACK_CAPACITY);
     pmem := program; stdout := []; rand_calls := O |}.

(** A program as a C initialiser gives it: every listed value is converted
    to the unsigned word type (so [-8] is stored as [0xfffffff8]). *)
Definition words (l : list Z) : list Z := map wrap32 l.

End Isa.
Import Isa.

(* ------------------------------------------------------------------ *)
(** ** The routines shared by the two engines *)

Module Exec.

(** How a run of statements ends: it reaches its end with a value, it
    executes a [break] (which leaves the innermost enclosing [switch] or
    loop), or the process stops: an [assert] fails, a [goto] goes through a
    null entry of the table, or the fuel of the model is used up. *)
Inductive stop : Type := AssertFailed | WildJump | OutOfFuel.

Inductive res (A : Type) : Type :=
| Val (a : A)
| Brk
| Stop (e : stop).
Arguments Val {A} a.
Arguments Brk {A}.
Arguments Stop {A} e.

Definition M (A : Type) : Type := machine -> res A * machine.

Definition ret {A} (a : A) : M A := fun m => (Val a, m).

Definition bind {A B} (c : M A) (k : A -> M B) : M B :=
  fun m =>
    match c m with
    | (Val a, m') => k a m'
    | (Brk, m') => (Brk, m')
    | (Stop e, m') => (Stop e, m')
    end.

Notation "x <- c ;; k" := (bind c (fun x => k))
  (at level 61, c at next level, right associativity).
Notation "c ;; k" := (bind c (fun _ => k))
  (at level 61, right associativity).

Definition gets {A} (f : machine -> A) : M A := fun m => (Val (f m), m).
Definition modify (f : machine -> machine) : M unit := fun m => (Val tt, f m).
Definition break_ {A} : M A := fun m => (Brk, m).
Definition stop_ {A} (e : stop) : M A := fun m => (Stop e, m).

(** A [switch] or a loop, seen from outside: a [break] inside it ends it. *)
Definition enclose (c : M unit) : M unit :=
  fun m =>
    match c m with
    | (Brk, m') => (Val tt, m')
    | r => r
    end.

Definition assert_ (b : bool) : M unit :=
  if b then ret tt else stop_ AssertFailed.

Definition printf (e : event) : M unit :=
  modify (fun m => set_stdout (stdout m ++ [e]) m).

Section Routines.
Context `{platform}.

(** [fetch] *)
Definition fetch : M Z :=
  pc_ <- gets pc ;;
  assert_ (pc_ <? PROGRAM_SIZE) ;;
  pmem_ <- gets pmem ;;
  ret (array_get pc_ pmem_).

(** [fetch_checked] *)
Definition fetch_checked : M Z :=
  pc_ <- gets pc ;;
  if negb (pc_ <? PROGRAM_SIZE) then
    printf (Diag "PC out of bounds") ;;
    modify (set_state Cpu_Break) ;;
    ret (code Instr_Break)
  else fetch.

(** [decode]; it reads the cpu and writes nothing but a diagnostic line. *)
Definition decode (raw_instr : Z) : M decode_t :=
  match enumerator raw_instr with
  | Some (Instr_Nop | Instr_Halt | Instr_Print | Instr_Swap | Instr_Dup
         | Instr_Inc | Instr_Add | Instr_Sub | Instr_Mul | Instr_Rand
         | Instr_Dec | Instr_Drop | Instr_Over | Instr_Mod) =>
      ret {| opcode := raw_instr; length := 1; immediate := 0 |}
  | Some (Instr_Push | Instr_JNE | Instr_JE | Instr_Jump) =>
      pc_ <- gets pc ;;
      if negb (wrap32 (pc_ + 1) <? PROGRAM_SIZE) then
        printf (Diag "PC+1 out of bounds") ;;
        ret {| opcode := code Instr_Break; length := 1; immediate := 0 |}
      else
        pmem_ <- gets pmem ;;
        ret {| opcode := raw_instr; length := 2;
               immediate := sint32 (array_get (wrap32 (pc_ + 1)) pmem_) |}
  | Some Instr_Break | None =>
      (* Undefined instructions equal to Break *)
      ret {| opcode := code Instr_Break; length := 1; immediate := 0 |}
  end.

(** [BAIL_ON_ERROR()] *)
Definition BAIL_ON_ERROR : M unit :=
  s <- gets state ;;
  if is_running s then ret tt else break_.

(** [push]; the argument is converted to [uint32_t] at the call. *)
Definition push (v : Z) : M unit :=
  sp_ <- gets sp ;;
  if sp_ >=? STACK_CAPACITY - 1 then
    printf (Diag "Stack overflow") ;;
    modify (set_state Cpu_Break)
  else
    modify (set_sp (sp_ + 1)) ;;
    modify (fun m => set_stack (array_set (Z.to_nat (sp_ + 1)) (wrap32 v) (stack m)) m).

(** [pop] *)
Definition pop : M Z :=
  sp_ <- gets sp ;;
  if sp_ <? 0 then
    printf (Diag "Stack underflow") ;;
    modify (set_state Cpu_Break) ;;
    ret 0
  else
    stack_ <- gets stack ;;
    modify (set_sp (sp_ - 1)) ;;
    ret (array_get sp_ stack_).

(** [tmp1 = rand()] *)
Definition call_rand : M Z :=
  n <- gets rand_calls ;;
  modify (set_rand_calls (S n)) ;;
  ret (wrap32 (rand n)).

(** [cpu.pc += d] on the [uint32_t] program counter. *)
Definition add_pc (d : Z) : M unit :=
  modify (fun m => set_pc (wrap32 (pc m + d)) m).

(** The statements that handle one instruction.  The body of
    [case Instr_X:] in switched.c (up to its closing [break]) and the body of
    [sr_X:] in threaded.c (up to [ADVANCE_PC()]) are the same statements;
    what a [break] among them leaves differs, see [Switched] and
    [Threaded]. *)
Definition handler (i : Instr_t) (decoded : decode_t) : M unit :=
  match i with
  | Instr_Nop => ret tt
  | Instr_Halt => modify (set_state Cpu_Halted)
  | Instr_Push => push (immediate decoded)
  | Instr_Print =>
      tmp1 <- pop ;; BAIL_ON_ERROR ;;
      printf (Printed (sint32 tmp1))
  | Instr_Swap =>
      tmp1 <- pop ;;
      tmp2 <- pop ;;
      BAIL_ON_ERROR ;;
      push tmp1 ;;
      push tmp2
  | Instr_Dup =>
      tmp1 <- pop ;;
      BAIL_ON_ERROR ;;
      push tmp1 ;;
      push tmp1
  | Instr_Over =>
      tmp1 <- pop ;;
      tmp2 <- pop ;;
      BAIL_ON_ERROR ;;
      push tmp2 ;;
      push tmp1 ;;
      push tmp2
  | Instr_Inc =>
      tmp1 <- pop ;;
      BAIL_ON_ERROR ;;
      push (tmp1 + 1)
  | Instr_Add =>
      tmp1 <- pop ;;
      tmp2 <- pop ;;
      BAIL_ON_ERROR ;;
      push (tmp1 + tmp2)
  | Instr_Sub =>
      tmp1 <- pop ;;
      tmp2 <- pop ;;
      BAIL_ON_ERROR ;;
      push (tmp1 - tmp2)
  | Instr_Mod =>
      tmp1 <- pop ;;
      tmp2 <- pop ;;
      BAIL_ON_ERROR ;;
      if tmp2 =? 0 then
        modify (set_state Cpu_Break) ;;
        break_
      else push (tmp1 mod tmp2)
  | Instr_Mul =>
      tmp1 <- pop ;;
      tmp2 <- pop ;;
      BAIL_ON_ERROR ;;
      push (tmp1 * tmp2)
  | Instr_Rand =>
      tmp1 <- call_rand ;;
      push tmp1
  | Instr_Dec =>
      tmp1 <- pop ;;
      BAIL_ON_ERROR ;;
      push (tmp1 - 1)
  | Instr_Drop =>
      _ <- pop ;; ret tt
  | Instr_JE =>
      tmp1 <- pop ;;
      BAIL_ON_ERROR ;;
      if tmp1 =? 0 then add_pc (immediate decoded) else ret tt
  | Instr_JNE =>
      tmp1 <- pop ;;
      BAIL_ON_ERROR ;;
      if negb (tmp1 =? 0) then add_pc (immediate decoded) else ret tt
  | Instr_Jump => add_pc (immediate decoded)
  | Instr_Break => modify (set_state Cpu_Break)
  end.

(** The assertion after the loop of [main] and the value [main] returns. *)
Definition final_assertion (steplimit : Z) (m : machine) : bool :=
  negb (is_running (state m)) || (steps m =? steplimit).

Definition exit_code (steplimit : Z) (m : machine) : Z :=
  match state m with
  | Cpu_Halted => 0
  | Cpu_Running => if steps m =? steplimit then 0 else 1
  | Cpu_Break => 1
  end.

End Routines.
End Exec.
Import Exec.

(* ------------------------------------------------------------------ *)
(** ** switched.c *)

Module Switched.
Section Engine.
Context `{platform}.

(** [switch(decoded.opcode) { ... }]: a [break] in a case leaves the
    [switch] only. *)
Definition execute (decoded : decode_t) : M unit :=
  enclose
    match enumerator (opcode decoded) with
    | Some i => handler i decoded
    | None => assert_ false     (* default: assert("Unreachable" && false) *)
    end.

(** The body of the [while] loop of [main].  The [BAIL_ON_ERROR()] after
    [fetch_checked] is not inside the [switch]: its [break] leaves the
    loop. *)
Definition loop_body : M unit :=
  raw_instr <- fetch_checked ;;
  BAIL_ON_ERROR ;;
  decoded <- decode raw_instr ;;
  execute decoded ;;
  add_pc (length decoded) ;;                       (* Advance PC *)
  modify (fun m => set_steps (steps m + 1) m).

(** [while (cpu.state == Cpu_Running && cpu.steps < steplimit) { ... }] *)
Fixpoint while_ (fuel : nat) (steplimit : Z) : M unit :=
  fun m =>
    if is_running (state m) && (steps m <? steplimit) then
      match fuel with
      | O => (Stop OutOfFuel, m)
      | S fuel' => (loop_body ;; while_ fuel' steplimit) m
      end
    else (Val tt, m).

(** The loop of [main]: every iteration adds one to [steps], so
    [steplimit] iterations of fuel are enough (see
    [switched_run_returns]). *)
Definition run (steplimit : Z) : M unit :=
  enclose (while_ (Z.to_nat steplimit) steplimit).

(** [main], with the step limit and the program as arguments, up to the
    final report (which only reads the cpu). *)
Definition main (steplimit : Z) (program : list Z) : res Z * machine :=
  (run steplimit ;;
   m <- gets (fun m => m) ;;
   assert_ (final_assertion steplimit m) ;;
   ret (exit_code steplimit m)) (init program).

End Engine.
End Switched.

(* ------------------------------------------------------------------ *)
(** ** threaded.c *)

Module Threaded.

(** The labels of [main]. *)
Inductive label : Type :=
| sr_Break | sr_Nop | sr_Halt | sr_Push | sr_Print
| sr_Jne | sr_Swap | sr_Dup | sr_Je | sr_Inc
| sr_Add | sr_Sub | sr_Mul | sr_Rand | sr_Dec
| sr_Drop | sr_Over | sr_Mod | sr_Jump.

(** [static void* service_routines[]]; [None] is its final [NULL]. *)
Definition service_routines : list (option label) :=
  [ Some sr_Break; Some sr_Nop; Some sr_Halt; Some sr_Push; Some sr_Print;
    Some sr_Jne; Some sr_Swap; Some sr_Dup; Some sr_Je; Some sr_Inc;
    Some sr_Add; Some sr_Sub; Some sr_Mul; Some sr_Rand; Some sr_Dec;
    Some sr_Drop; Some sr_Over; Some sr_Mod; Some sr_Jump; None ].

(** The instruction whose statements stand after a label. *)
Definition statements (l : label) : Instr_t :=
  match l with
  | sr_Break => Instr_Break | sr_Nop => Instr_Nop | sr_Halt => Instr_Halt
  | sr_Push => Instr_Push | sr_Print => Instr_Print | sr_Jne => Instr_JNE
  | sr_Swap => Instr_Swap | sr_Dup => Instr_Dup | sr_Je => Instr_JE
  | sr_Inc => Instr_Inc | sr_Add => Instr_Add | sr_Sub => Instr_Sub
  | sr_Mul => Instr_Mul | sr_Rand => Instr_Rand | sr_Dec => Instr_Dec
  | sr_Drop => Instr_Drop | sr_Over => Instr_Over | sr_Mod => Instr_Mod
  | sr_Jump => Instr_Jump
  end.

Section Engine.
Context `{platform}.

(** [fetch_decode] *)
Definition fetch_decode : M decode_t :=
  raw_instr <- fetch_checked ;;
  decode raw_instr.

(** [ADVANCE_PC()] *)
Definition ADVANCE_PC (steplimit : Z) (decoded : decode_t) : M unit :=
  add_pc (length decoded) ;;
  modify (fun m => set_steps (steps m + 1) m) ;;
  m <- gets (fun m => m) ;;
  if negb (is_running (state m)) || (steps m >=? steplimit) then break_
  else ret tt.

(** [DISPATCH()]: [goto *service_routines[decoded.opcode]], with [goto_]
    what control does from a label on. *)
Definition DISPATCH (goto_ : label -> decode_t -> M unit)
    (decoded : decode_t) : M unit :=
  if opcode decoded <? 0 then stop_ WildJump
  else
    match nth_error service_routines (Z.to_nat (opcode decoded)) with
    | Some (Some l) => goto_ l decoded
    | _ => stop_ WildJump
    end.

(** [decoded = fetch_decode(&cpu); DISPATCH();] *)
Definition fetch_dispatch (goto_ : label -> decode_t -> M unit) : M unit :=
  decoded <- fetch_decode ;;
  DISPATCH goto_ decoded.

(** Control from label [l] on, inside the [do { ... } while] of [main]: the
    statements of the label, [ADVANCE_PC()], and then
    - after [sr_Halt], the next statement, which is the one labelled
      [sr_Push];
    - after [sr_Break], the end of the loop body: the loop condition, and
      the first statement of the body, labelled [sr_Nop], if it holds;
    - after any other label, [decoded = fetch_decode(&cpu); DISPATCH();].
    A [break] leaves the loop. *)
Fixpoint goto_ (fuel : nat) (steplimit : Z) (l : label) (decoded : decode_t)
    : M unit :=
  match fuel with
  | O => stop_ OutOfFuel
  | S fuel' =>
      handler (statements l) decoded ;;
      ADVANCE_PC steplimit decoded ;;
      match l with
      | sr_Halt => goto_ fuel' steplimit sr_Push decoded
      | sr_Break =>
          s <- gets state ;;
          if is_running s then goto_ fuel' steplimit sr_Nop decoded
          else ret tt
      | _ => fetch_dispatch (goto_ fuel' steplimit)
      end
  end.

(** From the first [fetch_decode] to the exit of the loop.  One unit of
    fuel per dispatch; [steplimit + 1] are enough (see
    [threaded_run_returns]). *)
Definition run (steplimit : Z) : M unit :=
  enclose (fetch_dispatch (goto_ (S (Z.to_nat steplimit)) steplimit)).

(** [main], with the step limit and the program as arguments, up to the
    final report. *)
Definition main (steplimit : Z) (program : list Z) : res Z * machine :=
  (run steplimit ;;
   m <- gets (fun m => m) ;;
   assert_ (final_assertion steplimit m) ;;
   ret (exit_code steplimit m)) (init program).

End Engine.
End Threaded.

(* ------------------------------------------------------------------ *)
(** ** Sample programs *)

(** A platform to run examples on. *)
Definition small_platform : platform :=
  {| PROGRAM_SIZE := 512; STACK_CAPACITY := 32; rand := fun n => Z.of_nat n |}.

(** [Factorial] of switched.c with [n] for its first immediate. *)
Definition Factorial (n : Z) : list Z :=
  words
    [ code Instr_Push; n;
      code Instr_Push; 1;
      code Instr_Swap;
      code Instr_Swap;
      code Instr_Over;
      code Instr_Mul;
      code Instr_Swap;
      code Instr_Dec;
      code Instr_Dup;
      code Instr_JNE; -8;
      code Instr_Swap;
      code Instr_Print;
      code Instr_Halt ].

(** [Primes] of switched.c and threaded.c with [nmax] for its first
    immediate. *)
Definition Primes (nmax : Z) : list Z :=
  words
    [ code Instr_Push; nmax;
      code Instr_Push; 2;
      code Instr_Over;
      code Instr_Over;
      code Instr_Sub;
      code Instr_JE; 23;
      code Instr_Push; 2;
      code Instr_Over;
      code Instr_Over;
      code Instr_Swap;
      code Instr_Sub;
      code Instr_JE; 9;
      code Instr_Over;
      code Instr_Over;
      code Instr_Swap;
      code Instr_Mod;
      code Instr_JE; 5;
      code Instr_Inc;
      code Instr_Jump; -15;
      code Instr_Over;
      code Instr_Print;
      code Instr_Drop;
      code Instr_Inc;
      code Instr_Jump; -28;
      code Instr_Halt ].

(** A running cpu of [small_platform] with 7 on top of 3 on its stack. *)
Definition seven_over_three : machine :=
  {| pc := 0; sp := 1; state := Cpu_Running; steps := 0;
     stack := 3 :: 7 :: repeat 0 30; pmem := []; stdout := [];
     rand_calls := O |}.

(** [Push 10, Push 0, Mod, Halt] *)
Definition ModScenario : list Z :=
  words [ code Instr_Push; 10; code Instr_Push; 0; code Instr_Mod;
          code Instr_Halt ].

(** [Push 0, Push 10, Mod, Halt]: the divisor, popped second, is zero. *)
Definition ModByZero : list Z :=
  words [ code Instr_Push; 0; code Instr_Push; 10; code Instr_Mod;
          code Instr_Halt ].

(* ------------------------------------------------------------------ *)
(** ** Vocabulary of the statements *)

Section Vocabulary.
Context `{platform}.

(** The stack pointer is inside its range and the array has its size. *)
Definition stack_ok (m : machine) : Prop :=
  -1 <= sp m < STACK_CAPACITY /\
  List.length (stack m) = Z.to_nat STACK_CAPACITY.

(** [cpu.pc += decoded.length; cpu.steps++] *)
Definition advance (d : decode_t) (m : machine) : machine :=
  set_steps (steps m + 1) (set_pc (wrap32 (pc m + length d)) m).

(** The cpu after a diagnostic line [msg] and [state = Cpu_Break]. *)
Definition faulted (msg : string) (m : machine) : machine :=
  set_state Cpu_Break (set_stdout (stdout m ++ [Diag msg]) m).

(** The label the table holds for an opcode of the catalog. *)
Definition label_of (i : Instr_t) : Threaded.label :=
  match i with
  | Instr_Break => Threaded.sr_Break | Instr_Nop => Threaded.sr_Nop
  | Instr_Halt => Threaded.sr_Halt | Instr_Push => Threaded.sr_Push
  | Instr_Print => Threaded.sr_Print | Instr_JNE => Threaded.sr_Jne
  | Instr_Swap => Threaded.sr_Swap | Instr_Dup => Threaded.sr_Dup
  | Instr_JE => Threaded.sr_Je | Instr_Inc => Threaded.sr_Inc
  | Instr_Add => Threaded.sr_Add | Instr_Sub => Threaded.sr_Sub
  | Instr_Mul => Threaded.sr_Mul | Instr_Rand => Threaded.sr_Rand
  | Instr_Dec => Threaded.sr_Dec | Instr_Drop => Threaded.sr_Drop
  | Instr_Over => Threaded.sr_Over | Instr_Mod => Threaded.sr_Mod
  | Instr_Jump => Threaded.sr_Jump
  end.

(** What the two engines leave behind agrees on the stack, the state and
    the output, and on the program counter and the step count unless the
    run ended in [Cpu_Break]. *)
Definition agree (ms mt : machine) : Prop :=
  sp ms = sp mt /\ state ms = state mt /\ stack ms = stack mt /\
  pmem ms = pmem mt /\ stdout ms = stdout mt /\
  rand_calls ms = rand_calls mt /\
  (state ms <> Cpu_Break -> pc ms = pc mt /\ steps ms = steps mt).

(** A run of statements that keeps [stack_ok]. *)
Definition keeps {A} (c : M A) : Prop :=
  forall m, stack_ok m -> stack_ok (snd (c m)).

(** The cpus the engines go through: the cpu at the head of the loop of
    switched.c after any number of iterations ([fuel] bounds them), the cpu
    of threaded.c after any number of dispatches, and what [push] and
    [pop], the only routines that write the stack pointer, make of them. *)
Inductive reachable : machine -> Prop :=
| reach_switched fuel limit prog :
    reachable (snd (Switched.while_ fuel limit (init prog)))
| reach_threaded fuel limit prog :
    reachable
      (snd (Threaded.fetch_dispatch (Threaded.goto_ fuel limit) (init prog)))
| reach_push v m : reachable m -> reachable (snd (push v m))
| reach_pop m : reachable m -> reachable (snd (pop m)).

(** The cpu whose stack holds [live], top first, below the slots [dead]
    that the stack pointer has left or not reached yet. *)
Definition cfg (pc_ : Z) (live dead : list Z) (st : cpu_state_t) (n : Z)
    (prog : list Z) (out : list event) (rc : nat) : machine :=
  {| pc := pc_; sp := Z.of_nat (List.length live) - 1; state := st;
     steps := n; stack := rev live ++ dead; pmem := prog; stdout := out;
     rand_calls := rc |}.

(** A 32-bit word. *)
Definition word (v : Z) : Prop := 0 <= v < modulus.

(** The instruction at the program counter is a jump that is taken: a
    [Jump], a [JE] with zero on top of the stack or a [JNE] with a value
    other than zero on top of the stack. *)
Definition jump_taken (m : machine) : Prop :=
  let w := array_get (pc m) (pmem m) in
  w = code Instr_Jump \/
  (w = code Instr_JE /\ 0 <= sp m /\ array_get (sp m) (stack m) = 0) \/
  (w = code Instr_JNE /\ 0 <= sp m /\ array_get (sp m) (stack m) <> 0).

(** The handlers that pop two operands. *)
Definition two_operands (i : Instr_t) : bool :=
  match i with
  | Instr_Swap | Instr_Over | Instr_Add | Instr_Sub | Instr_Mod
  | Instr_Mul => true
  | _ => false
  end.

(** The instructions that [decode] reads an immediate for. *)
Definition two_words (i : Instr_t) : bool :=
  match i with
  | Instr_Push | Instr_JNE | Instr_JE | Instr_Jump => true
  | _ => false
  end.

(** Both engines make the same step from [m] to [m']: one iteration of the
    loop of switched.c, and in threaded.c one fetch, decode and dispatch up
    to the end of [ADVANCE_PC()], after which the run goes on from [m'] or
    leaves the loop. *)
Definition full_step (m m' : machine) : Prop :=
  Switched.loop_body m = (Val tt, m') /\
  forall f limit,
    Threaded.fetch_dispatch (Threaded.goto_ (S f) limit) m =
    if is_running (state m') && (steps m' <? limit)
    then Threaded.fetch_dispatch (Threaded.goto_ f limit) m'
    else (Brk, m').

(** What [Add], [Sub] and [Mul] compute from the value popped first, [a],
    and the value popped second, [b], before the conversion to 32 bits. *)
Definition arith (i : Instr_t) (a b : Z) : Z :=
  match i with
  | Instr_Add => a + b
  | Instr_Sub => a - b
  | Instr_Mul => a * b
  | _ => 0
  end.

Definition is_arith (i : Instr_t) : bool :=
  match i with
  | Instr_Add | Instr_Sub | Instr_Mul => true
  | _ => false
  end.

(** The output holds values of [Print] only, no diagnostic line. *)
Definition values_only (out : list event) : Prop :=
  forall e, In e out -> exists v, e = Printed v.

(** [k] iterations of the loop of switched.c lead from [m] to [m']: the
    loop run from [m] with [k] more units of fuel is the loop run from
    [m'], for every step limit that [steps m'] does not exceed. *)
Definition runs_to (k : nat) (m m' : machine) : Prop :=
  steps m' = steps m + Z.of_nat k /\
  forall fuel limit,
    steps m' <= limit ->
    Switched.while_ (k + fuel) limit m = Switched.while_ fuel limit m'.

(** [n!] *)
Fixpoint fact (n : nat) : Z :=
  match n with
  | O => 1
  | S k => Z.of_nat (S k) * fact k
  end.

(** None of the [k] numbers from [d] on divides [c]. *)
Fixpoint no_divisor (k : nat) (d c : Z) : bool :=
  match k with
  | O => true
  | S k' => negb (c mod d =? 0) && no_divisor k' (d + 1) c
  end.

(** No number from 2 to [c - 1] divides [c]. *)
Definition is_prime (c : Z) : bool := no_divisor (Z.to_nat (c - 2)) 2 c.

(** The [k] numbers [c], [c + 1], ... *)
Fixpoint numbers_from (k : nat) (c : Z) : list Z :=
  match k with
  | O => []
  | S k' => c :: numbers_from k' (c + 1)
  end.

(** The lines that [Print] writes for the values [l]. *)
Definition printed (l : list Z) : list event :=
  map (fun v => Printed (sint32 v)) l.

(** The handlers that pop one operand. *)
Definition one_operand (i : Instr_t) : bool :=
  match i with
  | Instr_Print | Instr_Dup | Instr_Inc | Instr_Dec | Instr_Drop
  | Instr_JE | Instr_JNE => true
  | _ => false
  end.

(** The word at the program counter of [m] is the opcode of [i], and the
    immediate of [i], if it has one, lies inside the program. *)
Definition at_instr (m : machine) (i : Instr_t) : Prop :=
  pc m < PROGRAM_SIZE /\ array_get (pc m) (pmem m) = code i /\
  (two_words i = true -> wrap32 (pc m + 1) < PROGRAM_SIZE).

(** Both engines reach [m] from the start of [prog], making the same
    steps. *)
Inductive lockstep (prog : list Z) : machine -> Prop :=
| lockstep_init : lockstep prog (init prog)
| lockstep_step m m' :
    lockstep prog m -> full_step m m' -> lockstep prog m'.

(** The step that the engines make from [m], with steps left under
    [limit], is a fault that writes the diagnostic lines [lines]: the loop
    of switched.c entered at [m] and the dispatch of threaded.c from [m]
    both end, with the cpu in state [Cpu_Break] and [lines], nothing else,
    added to the output.  When [m] is a cpu of the run of [prog], that is
    the end of both programs: they return 1, and what the run wrote before
    [lines] are values of [Print]. *)
Definition faults_with (m : machine) (lines : list event) : Prop :=
  forall limit,
    steps m < limit ->
    exists ms mt,
      (forall fuel,
         enclose (Switched.while_ (S fuel) limit) m = (Val tt, ms)) /\
      (forall fuel,
         enclose (Threaded.fetch_dispatch (Threaded.goto_ (S fuel) limit)) m
         = (Val tt, mt)) /\
      state ms = Cpu_Break /\ state mt = Cpu_Break /\
      stdout ms = stdout m ++ lines /\
      stdout mt = stdout m ++ lines /\
      (forall prog,
         lockstep prog m ->
         Switched.main limit prog = (Val 1, ms) /\
         Threaded.main limit prog = (Val 1, mt) /\
         values_only (stdout m)).

End Vocabulary.

(* ------------------------------------------------------------------ *)
(** ** Facts on words *)

Section Word32Facts.

Lemma wrap32_range x : 0 <= wrap32 x < modulus.
Proof. unfold wrap32, modulus. apply Z.mod_pos_bound. lia. Qed.

Lemma wrap32_small x : 0 <= x < modulus -> wrap32 x = x.
Proof. intros Hx. unfold wrap32. now apply Z.mod_small. Qed.

Lemma wrap32_idem x : wrap32 (wrap32 x) = wrap32 x.
Proof. apply wrap32_small, wrap32_range. Qed.

Lemma wrap32_sint32 x : wrap32 (sint32 x) = wrap32 x.
Proof.
  unfold sint32. destruct (wrap32 x <? half_modulus).
  - apply wrap32_idem.
  - unfold wrap32, modulus.
    replace (x mod 4294967296 - 4294967296)
      with (x mod 4294967296 + (-1) * 4294967296) by lia.
    rewrite Z.mod_add by lia. apply Z.mod_mod. lia.
Qed.

(** [pc + imm], both converted to [uint32_t] before the addition. *)
Lemma wrap32_add_l a b : wrap32 (wrap32 a + b) = wrap32 (a + b).
Proof. unfold wrap32, modulus. apply Zplus_mod_idemp_l. Qed.

Lemma wrap32_add_r a b : wrap32 (a + wrap32 b) = wrap32 (a + b).
Proof. unfold wrap32, modulus. apply Zplus_mod_idemp_r. Qed.

End Word32Facts.

(* ------------------------------------------------------------------ *)
(** ** Arrays and the live part of the stack *)

Section Arrays.

Lemma array_set_length i v a :
  List.length (array_set i v a) = List.length a.
Proof. revert i; induction a as [|h t IH]; intros [|j]; simpl; auto. Qed.

(** Writing the slot that follows a prefix. *)
Lemma array_set_app l x v tl :
  array_set (List.length l) v (l ++ x :: tl) = l ++ v :: tl.
Proof. induction l as [|h t IH]; simpl; [reflexivity | now rewrite IH]. Qed.

Lemma array_get_app l x tl :
  array_get (Z.of_nat (List.length l)) (l ++ x :: tl) = x.
Proof.
  unfold array_get. rewrite Nat2Z.id.
  induction l as [|h t IH]; simpl; auto.
Qed.

Lemma firstn_exact (l tl : list Z) :
  firstn (List.length l) (l ++ tl) = l.
Proof. induction l as [|h t IH]; simpl; [now destruct tl | now rewrite IH]. Qed.

End Arrays.

(* ------------------------------------------------------------------ *)
(** ** Facts on the shared routines *)

Ltac fields :=
  cbn [pc sp state steps stack pmem stdout rand_calls
       set_pc set_sp set_state set_steps set_stack set_stdout set_rand_calls
       opcode length immediate fst snd is_running negb] in *.

Ltac unfold_exec :=
  cbv [handler bind gets modify ret break_ stop_ assert_ printf enclose
       fetch fetch_checked BAIL_ON_ERROR push pop add_pc call_rand];
  fields.

Ltac split_ifs :=
  repeat match goal with
  | |- context [if ?b then _ else _] => destruct b eqn:?; fields
  end.

Section Facts.
Context `{platform}.

Lemma enumerator_range w i : enumerator w = Some i -> 0 <= w <= 18.
Proof.
  destruct w as [|p|p]; simpl; try discriminate; try lia.
  do 5 (try destruct p as [p|p|]); simpl; try discriminate; lia.
Qed.

Lemma enumerator_code w i : enumerator w = Some i -> w = code i.
Proof.
  intros E. pose proof (enumerator_range _ _ E) as R.
  assert (C : w = 0 \/ w = 1 \/ w = 2 \/ w = 3 \/ w = 4 \/ w = 5 \/ w = 6 \/
              w = 7 \/ w = 8 \/ w = 9 \/ w = 10 \/ w = 11 \/ w = 12 \/
              w = 13 \/ w = 14 \/ w = 15 \/ w = 16 \/ w = 17 \/ w = 18)
    by lia.
  repeat (destruct C as [C|C]; [subst w; simpl in E; now inversion E|]).
  subst w; simpl in E; now inversion E.
Qed.

Lemma enumerator_of_code i : enumerator (code i) = Some i.
Proof. now destruct i. Qed.

Lemma enumerator_outside w : ~ (0 <= w <= 18) -> enumerator w = None.
Proof.
  intros N. destruct (enumerator w) eqn:E; [|reflexivity].
  apply enumerator_range in E. contradiction.
Qed.

Lemma statements_label_of i : Threaded.statements (label_of i) = i.
Proof. now destruct i. Qed.

(** The table sends every opcode of the catalog to the label of its own
    handler: the [switch] and the table select the same statements. *)
Lemma DISPATCH_catalog g d i :
  enumerator (opcode d) = Some i ->
  Threaded.DISPATCH g d = g (label_of i) d.
Proof.
  intros E. apply enumerator_code in E. unfold Threaded.DISPATCH.
  rewrite E. now destruct i.
Qed.

(** [decode] always returns an instruction of the catalog, of one or two
    words, and leaves the cpu as it is up to one diagnostic line. *)
Lemma decode_catalog raw m :
  exists d out,
    decode raw m = (Val d, set_stdout out m) /\
    (exists i, enumerator (opcode d) = Some i) /\
    (length d = 1 \/ length d = 2).
Proof.
  destruct m as [pc0 sp0 st0 n0 stk0 pm0 out0 rc0].
  unfold decode.
  destruct (enumerator raw) as [i|] eqn:E; [destruct i|];
    unfold_exec; split_ifs;
    (do 2 eexists; split; [reflexivity|]; fields; split;
     [eexists; first [eassumption | reflexivity] | auto]).
Qed.

(** A handler never stops the process, leaves [steps] and the program
    alone, keeps the stack pointer in range, and executes a [break] only
    with the cpu in state [Cpu_Break]. *)
Lemma handler_facts i d m :
  state m = Cpu_Running ->
  exists r m',
    handler i d m = (r, m') /\
    (r = Val tt \/ r = Brk /\ state m' = Cpu_Break) /\
    steps m' = steps m /\ pmem m' = pmem m /\
    (stack_ok m -> stack_ok m').
Proof.
  destruct m as [pc0 sp0 st0 n0 stk0 pm0 out0 rc0]. unfold stack_ok.
  fields. intros ->.
  destruct i; unfold_exec; split_ifs;
    (do 2 eexists; split; [reflexivity|]; fields;
     repeat split; auto; try discriminate; try lia;
     rewrite ?array_set_length; tauto).
Qed.

(** [Halt] and [Break] leave the cpu out of state [Cpu_Running]. *)
Lemma handler_terminal i d m m' :
  handler i d m = (Val tt, m') -> state m' = Cpu_Running ->
  i <> Instr_Halt /\ i <> Instr_Break.
Proof.
  intros E R. split; intros ->; unfold_exec;
    inversion E; subst m'; fields; discriminate.
Qed.

(** *** One iteration of the loop of switched.c *)

Lemma fetch_checked_in m :
  pc m < PROGRAM_SIZE ->
  fetch_checked m = (Val (array_get (pc m) (pmem m)), m).
Proof.
  intros L. apply Z.ltb_lt in L. unfold_exec.
  rewrite L. cbn [negb]. cbv beta. now rewrite L.
Qed.

Lemma fetch_checked_out m :
  PROGRAM_SIZE <= pc m ->
  fetch_checked m = (Val (code Instr_Break), faulted "PC out of bounds" m).
Proof.
  intros L. apply Z.ltb_ge in L. unfold_exec. now rewrite L.
Qed.

(** With the program counter outside the program the iteration ends at
    the [BAIL_ON_ERROR()] that follows the fetch. *)
Lemma loop_body_out m :
  PROGRAM_SIZE <= pc m ->
  Switched.loop_body m = (Brk, faulted "PC out of bounds" m).
Proof.
  intros L. unfold Switched.loop_body, bind.
  now rewrite (fetch_checked_out _ L).
Qed.

(** Otherwise it runs the handler of the decoded instruction and then
    advances, whether the handler ended at a [break] or not. *)
Lemma loop_body_in m d m2 i r m3 :
  state m = Cpu_Running -> pc m < PROGRAM_SIZE ->
  decode (array_get (pc m) (pmem m)) m = (Val d, m2) ->
  enumerator (opcode d) = Some i ->
  handler i d m2 = (r, m3) -> (forall e, r <> Stop e) ->
  Switched.loop_body m = (Val tt, advance d m3).
Proof.
  intros R L D E Hh NS. unfold Switched.loop_body, bind at 1.
  rewrite (fetch_checked_in _ L). unfold bind at 1, BAIL_ON_ERROR at 1.
  unfold bind at 1, gets. rewrite R. cbn [is_running ret].
  unfold bind at 1. rewrite D. unfold bind at 1, Switched.execute, enclose.
  rewrite E, Hh. destruct r as [[]| |e]; [reflexivity | reflexivity |].
  now destruct (NS e).
Qed.

(** *** One dispatch of threaded.c *)

Lemma fetch_dispatch_in g m d m2 i :
  pc m < PROGRAM_SIZE ->
  decode (array_get (pc m) (pmem m)) m = (Val d, m2) ->
  enumerator (opcode d) = Some i ->
  Threaded.fetch_dispatch g m = g (label_of i) d m2.
Proof.
  intros L D E. unfold Threaded.fetch_dispatch, Threaded.fetch_decode, bind.
  rewrite (fetch_checked_in _ L), D. now rewrite (DISPATCH_catalog _ _ _ E).
Qed.

(** With the program counter outside the program, [fetch_decode] returns
    a [Break] of one word and the dispatch goes to [sr_Break]. *)
Lemma fetch_dispatch_out g m :
  PROGRAM_SIZE <= pc m ->
  Threaded.fetch_dispatch g m =
  g Threaded.sr_Break {| opcode := code Instr_Break; length := 1; immediate := 0 |}
    (faulted "PC out of bounds" m).
Proof.
  intros L. unfold Threaded.fetch_dispatch, Threaded.fetch_decode, bind.
  now rewrite (fetch_checked_out _ L).
Qed.

(** A [break] in the statements of a label leaves the loop: no
    [ADVANCE_PC()] follows. *)
Lemma goto_break f limit l d m m3 :
  handler (Threaded.statements l) d m = (Brk, m3) ->
  Threaded.goto_ (S f) limit l d m = (Brk, m3).
Proof. intros Hh. cbn [Threaded.goto_]. unfold bind at 1. now rewrite Hh. Qed.

(** [ADVANCE_PC()] leaves the loop when the cpu stopped running or the
    step limit is reached. *)
Lemma goto_exit f limit l d m m3 :
  handler (Threaded.statements l) d m = (Val tt, m3) ->
  state m3 <> Cpu_Running \/ limit <= steps m3 + 1 ->
  Threaded.goto_ (S f) limit l d m = (Brk, advance d m3).
Proof.
  intros Hh C. cbn [Threaded.goto_]. unfold bind at 1. rewrite Hh.
  unfold bind at 1, Threaded.ADVANCE_PC. unfold_exec.
  replace (negb (is_running (state m3)) || (steps m3 + 1 >=? limit))
    with true; [reflexivity|].
  symmetry. apply orb_true_iff. destruct C as [C|C].
  - left. destruct (state m3); auto; now destruct C.
  - right. apply Z.geb_le. lia.
Qed.

(** Otherwise the next instruction is fetched, decoded and dispatched. *)
Lemma goto_next f limit l d m m3 :
  handler (Threaded.statements l) d m = (Val tt, m3) ->
  state m3 = Cpu_Running -> steps m3 + 1 < limit ->
  Threaded.goto_ (S f) limit l d m =
  Threaded.fetch_dispatch (Threaded.goto_ f limit) (advance d m3).
Proof.
  intros Hh R C.
  assert (T := handler_terminal _ _ _ _ Hh R).
  cbn [Threaded.goto_]. unfold bind at 1. rewrite Hh.
  unfold bind at 1, Threaded.ADVANCE_PC. unfold_exec. rewrite R.
  replace (steps m3 + 1 >=? limit) with false
    by (symmetry; rewrite Z.geb_leb; apply Z.leb_gt; lia).
  cbn [is_running negb orb].
  destruct l; try reflexivity; cbn [Threaded.statements] in T; now destruct T.
Qed.

(** *** The two loops side by side *)

Lemma while_done fuel limit m :
  state m <> Cpu_Running \/ limit <= steps m ->
  Switched.while_ fuel limit m = (Val tt, m).
Proof.
  intros C.
  assert (E : is_running (state m) && (steps m <? limit) = false).
  { apply andb_false_iff. destruct C as [C|C].
    - left. destruct (state m); auto; now destruct C.
    - right. apply Z.ltb_ge. lia. }
  destruct fuel; cbn [Switched.while_]; now rewrite E.
Qed.

Lemma while_step fuel limit m :
  state m = Cpu_Running -> steps m < limit ->
  Switched.while_ (S fuel) limit m =
  (Switched.loop_body ;; Switched.while_ fuel limit) m.
Proof.
  intros R L. cbn [Switched.while_]. rewrite R.
  apply Z.ltb_lt in L. now rewrite L.
Qed.

Lemma agree_refl m : agree m m.
Proof. unfold agree. tauto. Qed.

Ltac cbn_adv :=
  cbn [advance faulted pc sp state steps stack pmem stdout rand_calls
       set_pc set_sp set_state set_steps set_stack set_stdout set_rand_calls]
    in *.

Ltac finish :=
  do 3 eexists; split; [reflexivity|]; split; [auto|];
  split; [reflexivity|];
  unfold agree; cbn_adv;
  repeat split; intros; try lia; try congruence;
  first [left; congruence | right; lia].

(** From a running cpu below the step limit, the [while] loop of
    switched.c and the dispatch chain of threaded.c both end, given fuel
    for the remaining steps, in cpus that agree. *)
Lemma engines_from fs :
  forall ft limit m,
    state m = Cpu_Running -> steps m < limit ->
    limit - steps m <= Z.of_nat fs -> limit - steps m <= Z.of_nat ft ->
    exists rs ms mt,
      Switched.while_ fs limit m = (rs, ms) /\ (rs = Val tt \/ rs = Brk) /\
      Threaded.fetch_dispatch (Threaded.goto_ ft limit) m = (Brk, mt) /\
      agree ms mt /\
      steps ms <= limit /\ (state ms <> Cpu_Running \/ steps ms = limit).
Proof.
  induction fs as [|fs IH]; intros ft limit m R L Fs Ft; [lia|].
  destruct ft as [|ft]; [lia|].
  rewrite (while_step _ _ _ R L). unfold bind at 1.
  destruct (Z_lt_le_dec (pc m) PROGRAM_SIZE) as [In|Out].
  - destruct (decode_catalog (array_get (pc m) (pmem m)) m)
      as (d & out & D & [i E] & _).
    destruct (handler_facts i d (set_stdout out m) R)
      as (r & m3 & Hh & Hr & Hn & _ & _).
    cbn [steps set_stdout] in Hn.
    rewrite (fetch_dispatch_in _ _ _ _ _ In D E).
    assert (NS : forall e, r <> Stop e)
      by (destruct Hr as [-> | [-> _]]; discriminate).
    rewrite (loop_body_in _ _ _ _ _ _ R In D E Hh NS).
    rewrite <- (statements_label_of i) in Hh.
    destruct Hr as [-> | [-> B]].
    + destruct (state m3) eqn:R3;
        [destruct (Z_lt_le_dec (steps m3 + 1) limit) as [Lt|Ge] | |].
      * rewrite (goto_next _ _ _ _ _ _ Hh R3 Lt).
        apply IH; cbn_adv; auto; lia.
      * rewrite (goto_exit _ _ _ _ _ _ Hh) by (right; lia).
        rewrite while_done by (right; cbn_adv; lia).
        finish.
      * rewrite (goto_exit _ _ _ _ _ _ Hh) by (left; congruence).
        rewrite while_done by (left; cbn_adv; congruence).
        finish.
      * rewrite (goto_exit _ _ _ _ _ _ Hh) by (left; congruence).
        rewrite while_done by (left; cbn_adv; congruence).
        finish.
    + rewrite (goto_break _ _ _ _ _ _ Hh).
      rewrite while_done by (left; cbn_adv; congruence).
      finish.
  - rewrite (loop_body_out _ Out), (fetch_dispatch_out _ _ Out).
    erewrite goto_exit; [| reflexivity | left; discriminate].
    finish.
Qed.

Lemma main_of_run_switched limit prog m :
  Switched.run limit (init prog) = (Val tt, m) ->
  final_assertion limit m = true ->
  Switched.main limit prog = (Val (exit_code limit m), m).
Proof.
  intros E A. unfold Switched.main, bind. rewrite E.
  unfold gets, assert_. now rewrite A.
Qed.

Lemma main_of_run_threaded limit prog m :
  Threaded.run limit (init prog) = (Val tt, m) ->
  final_assertion limit m = true ->
  Threaded.main limit prog = (Val (exit_code limit m), m).
Proof.
  intros E A. unfold Threaded.main, bind. rewrite E.
  unfold gets, assert_. now rewrite A.
Qed.

Lemma final_assertion_true limit m :
  state m <> Cpu_Running \/ steps m = limit ->
  final_assertion limit m = true.
Proof.
  unfold final_assertion. intros [C|C]; apply orb_true_iff.
  - left. destruct (state m); auto; now destruct C.
  - right. now apply Z.eqb_eq.
Qed.

(** With a step limit of at least one, the two programs return the same
    exit code and leave cpus that agree; both loops end within the fuel
    given to them. *)
Lemma engines_agree limit prog :
  1 <= limit ->
  exists c ms mt,
    Switched.main limit prog = (Val c, ms) /\
    Threaded.main limit prog = (Val c, mt) /\
    agree ms mt /\
    steps ms <= limit /\ (state ms <> Cpu_Running \/ steps ms = limit).
Proof.
  intros L.
  destruct (engines_from (Z.to_nat limit) (S (Z.to_nat limit)) limit
              (init prog)) as (rs & ms & mt & Es & Rs & Et & A & B & F);
    try reflexivity; cbn [init steps]; try lia.
  assert (Rs' : Switched.run limit (init prog) = (Val tt, ms)).
  { unfold Switched.run, enclose. rewrite Es.
    now destruct Rs as [-> | ->]. }
  assert (Rt' : Threaded.run limit (init prog) = (Val tt, mt)).
  { unfold Threaded.run, enclose. now rewrite Et. }
  assert (Ft : state mt <> Cpu_Running \/ steps mt = limit).
  { destruct A as (_ & As & _ & _ & _ & _ & Ap).
    destruct (state ms) eqn:S; rewrite <- As.
    - right. destruct Ap as [_ <-]; [discriminate|].
      destruct F as [F|F]; [now destruct F | exact F].
    - left; discriminate.
    - left; discriminate. }
  exists (exit_code limit ms), ms, mt.
  rewrite (main_of_run_switched _ _ _ Rs' (final_assertion_true _ _ F)).
  rewrite (main_of_run_threaded _ _ _ Rt' (final_assertion_true _ _ Ft)).
  split; [reflexivity|]. split; [|now auto].
  f_equal. f_equal. unfold exit_code.
  destruct A as (_ & As & _ & _ & _ & _ & Ap). rewrite <- As.
  destruct (state ms); auto.
  destruct Ap as [_ <-]; [discriminate | reflexivity].
Qed.

(** Both loops end, whatever the step limit and the program: the fuel
    given to them in [Switched.run] and [Threaded.run] is never used up, no
    assertion of the routines fails and no [goto] leaves the table. *)
Lemma switched_run_returns limit prog :
  exists m, Switched.run limit (init prog) = (Val tt, m).
Proof.
  unfold Switched.run, enclose.
  destruct (Z_lt_le_dec 0 limit) as [Pos|Neg].
  - destruct (engines_from (Z.to_nat limit) (Z.to_nat limit) limit
                (init prog)) as (rs & ms & _ & Es & Rs & _);
      try reflexivity; cbn [init steps]; try lia.
    rewrite Es. exists ms. now destruct Rs as [-> | ->].
  - exists (init prog). now rewrite while_done by (right; exact Neg).
Qed.

Lemma threaded_run_returns limit prog :
  exists m, Threaded.run limit (init prog) = (Val tt, m).
Proof.
  unfold Threaded.run, enclose.
  destruct (Z_lt_le_dec 0 limit) as [Pos|Neg].
  - destruct (engines_from (Z.to_nat limit) (S (Z.to_nat limit)) limit
                (init prog)) as (_ & _ & mt & _ & _ & Et & _);
      try reflexivity; cbn [init steps]; try lia.
    rewrite Et. now exists mt.
  - destruct (Z_lt_le_dec (pc (init prog)) PROGRAM_SIZE) as [In|Out].
    + destruct (decode_catalog (array_get (pc (init prog)) (pmem (init prog)))
                  (init prog)) as (d & out & D & [i E] & _).
      destruct (handler_facts i d (set_stdout out (init prog)) eq_refl)
        as (r & m3 & Hh & Hr & Hn & _ & _).
      cbn [steps set_stdout init] in Hn.
      rewrite (fetch_dispatch_in _ _ _ _ _ In D E).
      rewrite <- (statements_label_of i) in Hh.
      destruct Hr as [-> | [-> B]].
      * rewrite (goto_exit _ _ _ _ _ _ Hh) by (right; lia). eauto.
      * rewrite (goto_break _ _ _ _ _ _ Hh). eauto.
    + rewrite (fetch_dispatch_out _ _ Out).
      erewrite goto_exit; [eauto | reflexivity | left; discriminate].
Qed.

(** The loop of switched.c ends for every step limit, and the assertion
    that follows it holds when the limit is not negative. *)
Lemma switched_main_returns limit prog :
  0 <= limit ->
  exists c m,
    Switched.main limit prog = (Val c, m) /\
    steps m <= limit /\ (state m <> Cpu_Running \/ steps m = limit).
Proof.
  intros L. destruct (Z.eq_dec limit 0) as [->|N].
  - exists 0, (init prog). repeat split; cbn; auto; lia.
  - destruct (engines_agree limit prog) as (c & ms & _ & E & _ & _ & B & F);
      [lia|]. now exists c, ms.
Qed.

End Facts.

(* ------------------------------------------------------------------ *)
(** ** The stack pointer stays in range *)

Section Invariant.
Context `{platform}.

Lemma keeps_ret {A} (a : A) : keeps (ret a).
Proof. now intros m. Qed.

Lemma keeps_gets {A} (f : machine -> A) : keeps (gets f).
Proof. now intros m. Qed.

Lemma keeps_break {A} : keeps (@break_ A).
Proof. now intros m. Qed.

Lemma keeps_stop {A} e : keeps (@stop_ A e).
Proof. now intros m. Qed.

Lemma keeps_modify f :
  (forall m, sp (f m) = sp m /\ stack (f m) = stack m) -> keeps (modify f).
Proof.
  intros Hf m [B L]. destruct (Hf m) as [E1 E2].
  unfold stack_ok, modify. cbn [snd]. now rewrite E1, E2.
Qed.

Lemma keeps_bind {A B} (c : M A) (k : A -> M B) :
  keeps c -> (forall a, keeps (k a)) -> keeps (bind c k).
Proof.
  intros Hc Hk m Hm. unfold bind. specialize (Hc m Hm).
  destruct (c m) as [[a| |e] m']; cbn [snd] in *; auto.
  now apply Hk.
Qed.

Lemma keeps_enclose c : keeps c -> keeps (enclose c).
Proof.
  intros Hc m Hm. unfold enclose. specialize (Hc m Hm).
  now destruct (c m) as [[a| |e] m'].
Qed.

Lemma keeps_if {A} (b : bool) (c1 c2 : M A) :
  keeps c1 -> keeps c2 -> keeps (if b then c1 else c2).
Proof. now destruct b. Qed.

Lemma keeps_printf e : keeps (printf e).
Proof. now apply keeps_modify. Qed.

Lemma keeps_push v : keeps (push v).
Proof.
  intros m [B L]. unfold push, bind, gets.
  destruct (sp m >=? STACK_CAPACITY - 1) eqn:C; unfold stack_ok; unfold_exec.
  - now split.
  - rewrite array_set_length. split; [lia | exact L].
Qed.

Lemma keeps_pop : keeps pop.
Proof.
  intros m [B L]. unfold pop, bind, gets.
  destruct (sp m <? 0) eqn:C; unfold stack_ok; unfold_exec.
  - now split.
  - split; [lia | exact L].
Qed.

Lemma keeps_BAIL_ON_ERROR : keeps BAIL_ON_ERROR.
Proof.
  apply keeps_bind; [apply keeps_gets|]. intros s.
  apply keeps_if; [apply keeps_ret | apply keeps_break].
Qed.

Lemma keeps_add_pc d : keeps (add_pc d).
Proof. now apply keeps_modify. Qed.

Lemma keeps_set_state s : keeps (modify (set_state s)).
Proof. now apply keeps_modify. Qed.

Lemma keeps_count : keeps (modify (fun m => set_steps (steps m + 1) m)).
Proof. now apply keeps_modify. Qed.

Lemma keeps_call_rand : keeps call_rand.
Proof.
  apply keeps_bind; [apply keeps_gets|]. intros n.
  apply keeps_bind; [now apply keeps_modify | intros; apply keeps_ret].
Qed.

Ltac keeps_tac :=
  repeat first
    [ apply keeps_ret | apply keeps_gets | apply keeps_break
    | apply keeps_stop | apply keeps_printf | apply keeps_push
    | apply keeps_pop | apply keeps_BAIL_ON_ERROR | apply keeps_add_pc
    | apply keeps_set_state | apply keeps_count | apply keeps_call_rand
    | apply keeps_enclose | apply keeps_if
    | apply keeps_bind; [|intros ?] ].

Lemma keeps_handler i d : keeps (handler i d).
Proof. destruct i; unfold handler; keeps_tac. Qed.

Lemma keeps_fetch_checked : keeps fetch_checked.
Proof. unfold fetch_checked, fetch, assert_. keeps_tac. Qed.

Lemma keeps_decode raw : keeps (decode raw).
Proof.
  unfold decode. destruct (enumerator raw) as [i|]; [destruct i|]; keeps_tac.
Qed.

Lemma keeps_loop_body : keeps Switched.loop_body.
Proof.
  unfold Switched.loop_body, Switched.execute.
  apply keeps_bind; [apply keeps_fetch_checked | intros raw].
  apply keeps_bind; [apply keeps_BAIL_ON_ERROR | intros _].
  apply keeps_bind; [apply keeps_decode | intros d].
  apply keeps_bind; [apply keeps_enclose | intros _; keeps_tac].
  destruct (enumerator (opcode d));
    [apply keeps_handler | unfold assert_; keeps_tac].
Qed.

Lemma keeps_while fuel limit : keeps (Switched.while_ fuel limit).
Proof.
  induction fuel as [|f IH]; intros m Hm; cbn [Switched.while_];
    destruct (is_running (state m) && (steps m <? limit)); auto.
  apply (keeps_bind Switched.loop_body (fun _ => Switched.while_ f limit));
    auto using keeps_loop_body.
Qed.

Lemma keeps_ADVANCE_PC limit d : keeps (Threaded.ADVANCE_PC limit d).
Proof. unfold Threaded.ADVANCE_PC. keeps_tac. Qed.

Lemma keeps_fetch_dispatch g :
  (forall l d, keeps (g l d)) -> keeps (Threaded.fetch_dispatch g).
Proof.
  intros Hg. unfold Threaded.fetch_dispatch, Threaded.fetch_decode.
  apply keeps_bind.
  - apply keeps_bind; [apply keeps_fetch_checked | apply keeps_decode].
  - intros d. unfold Threaded.DISPATCH.
    apply keeps_if; [apply keeps_stop|].
    destruct (nth_error _ _) as [[l|]|];
      [apply Hg | apply keeps_stop | apply keeps_stop].
Qed.

Lemma keeps_goto fuel limit : forall l d, keeps (Threaded.goto_ fuel limit l d).
Proof.
  induction fuel as [|f IH]; intros l d; cbn [Threaded.goto_];
    [apply keeps_stop|].
  apply keeps_bind; [apply keeps_handler | intros _].
  apply keeps_bind; [apply keeps_ADVANCE_PC | intros _].
  destruct l; auto using keeps_fetch_dispatch.
  apply keeps_bind; [apply keeps_gets | intros s].
  apply keeps_if; [apply IH | apply keeps_ret].
Qed.

Lemma init_stack_ok prog : 0 <= STACK_CAPACITY -> stack_ok (init prog).
Proof.
  intros C. unfold stack_ok, init. cbn [sp stack].
  rewrite repeat_length. split; [lia | reflexivity].
Qed.

End Invariant.

(* ------------------------------------------------------------------ *)
(** ** The routines on a stack given by its live part *)

Section Live.
Context `{platform}.

Lemma stack_dump_cfg p live dead st n prog out rc :
  stack_dump (cfg p live dead st n prog out rc) = live.
Proof.
  unfold stack_dump, cfg. cbn [sp stack].
  replace (Z.to_nat (Z.of_nat (List.length live) - 1 + 1))
    with (List.length (rev live)) by (rewrite length_rev; lia).
  rewrite firstn_exact. apply rev_involutive.
Qed.

(** Every cpu with its stack pointer in range is of that form. *)
Lemma cfg_of_dump m :
  stack_ok m ->
  m = cfg (pc m) (stack_dump m) (skipn (Z.to_nat (sp m + 1)) (stack m))
        (state m) (steps m) (pmem m) (stdout m) (rand_calls m).
Proof.
  destruct m as [pc0 sp0 st0 n0 stk0 pm0 out0 rc0].
  unfold stack_ok, cfg, stack_dump. cbn [pc sp state steps stack pmem stdout
                                          rand_calls].
  intros [B L]. f_equal.
  - rewrite length_rev, length_firstn. lia.
  - rewrite rev_involutive. symmetry. apply firstn_skipn.
Qed.

Lemma pop_cfg p a live dead st n prog out rc :
  pop (cfg p (a :: live) dead st n prog out rc) =
  (Val a, cfg p live (a :: dead) st n prog out rc).
Proof.
  unfold pop, bind, gets, modify, ret, cfg. cbn [sp stack].
  replace (Z.of_nat (List.length (a :: live)) - 1 <? 0) with false
    by (symmetry; apply Z.ltb_ge; cbn [List.length]; lia).
  cbn [rev]. rewrite <- app_assoc. cbn [app].
  replace (Z.of_nat (List.length (a :: live)) - 1)
    with (Z.of_nat (List.length (rev live)))
    by (rewrite length_rev; cbn [List.length]; lia).
  unfold set_sp. cbn [pc sp state steps stack pmem stdout rand_calls].
  rewrite array_get_app, length_rev. reflexivity.
Qed.

Lemma pop_empty m :
  sp m < 0 -> pop m = (Val 0, faulted "Stack underflow" m).
Proof.
  intros L. apply Z.ltb_lt in L. unfold pop, bind, gets. now rewrite L.
Qed.

Lemma push_cfg v p live d dead st n prog out rc :
  Z.of_nat (List.length live) < STACK_CAPACITY ->
  push v (cfg p live (d :: dead) st n prog out rc) =
  (Val tt, cfg p (wrap32 v :: live) dead st n prog out rc).
Proof.
  intros C. unfold push, bind, gets, modify, cfg. cbn [sp stack].
  replace (Z.of_nat (List.length live) - 1 >=? STACK_CAPACITY - 1) with false
    by (symmetry; rewrite Z.geb_leb; apply Z.leb_gt; lia).
  unfold set_sp, set_stack.
  cbn [pc sp state steps stack pmem stdout rand_calls].
  replace (Z.to_nat (Z.of_nat (List.length live) - 1 + 1))
    with (List.length (rev live)) by (rewrite length_rev; lia).
  rewrite array_set_app. cbn [rev List.length]. rewrite <- app_assoc.
  cbn [app]. f_equal. f_equal. lia.
Qed.

Lemma push_full v m :
  STACK_CAPACITY - 1 <= sp m ->
  push v m = (Val tt, faulted "Stack overflow" m).
Proof.
  intros L. unfold push, bind, gets.
  replace (sp m >=? STACK_CAPACITY - 1) with true
    by (symmetry; apply Z.geb_le; lia).
  reflexivity.
Qed.

Lemma bail_cfg p live dead n prog out rc :
  BAIL_ON_ERROR (cfg p live dead Cpu_Running n prog out rc) =
  (Val tt, cfg p live dead Cpu_Running n prog out rc).
Proof. reflexivity. Qed.

Ltac run_handler :=
  unfold handler;
  repeat (unfold bind at 1;
          first [ rewrite pop_cfg | rewrite bail_cfg
                | rewrite push_cfg by (cbn [List.length]; lia) ]).

Section Handlers.
Variables (d : decode_t) (p : Z) (l dead : list Z) (n : Z) (prog : list Z)
          (out : list event) (rc : nat).

Lemma h_Push x :
  Z.of_nat (List.length l) < STACK_CAPACITY ->
  handler Instr_Push d (cfg p l (x :: dead) Cpu_Running n prog out rc) =
  (Val tt, cfg p (wrap32 (immediate d) :: l) dead Cpu_Running n prog out rc).
Proof. intros C. unfold handler. now rewrite push_cfg. Qed.

Lemma h_Swap a b :
  Z.of_nat (List.length l) + 2 <= STACK_CAPACITY ->
  handler Instr_Swap d (cfg p (a :: b :: l) dead Cpu_Running n prog out rc) =
  (Val tt, cfg p (wrap32 b :: wrap32 a :: l) dead Cpu_Running n prog out rc).
Proof. intros C. run_handler. now rewrite push_cfg by (cbn [List.length]; lia). Qed.

Lemma h_Dup a x :
  Z.of_nat (List.length l) + 2 <= STACK_CAPACITY ->
  handler Instr_Dup d (cfg p (a :: l) (x :: dead) Cpu_Running n prog out rc) =
  (Val tt, cfg p (wrap32 a :: wrap32 a :: l) dead Cpu_Running n prog out rc).
Proof. intros C. run_handler. now rewrite push_cfg by (cbn [List.length]; lia). Qed.

Lemma h_Over a b x :
  Z.of_nat (List.length l) + 3 <= STACK_CAPACITY ->
  handler Instr_Over d
    (cfg p (a :: b :: l) (x :: dead) Cpu_Running n prog out rc) =
  (Val tt,
   cfg p (wrap32 b :: wrap32 a :: wrap32 b :: l) dead Cpu_Running n prog out rc).
Proof. intros C. run_handler. now rewrite push_cfg by (cbn [List.length]; lia). Qed.

Lemma h_Mul a b :
  Z.of_nat (List.length l) + 2 <= STACK_CAPACITY ->
  handler Instr_Mul d (cfg p (a :: b :: l) dead Cpu_Running n prog out rc) =
  (Val tt, cfg p (wrap32 (a * b) :: l) (a :: dead) Cpu_Running n prog out rc).
Proof. intros C. run_handler. now rewrite push_cfg by (cbn [List.length]; lia). Qed.

Lemma h_Dec a :
  Z.of_nat (List.length l) + 1 <= STACK_CAPACITY ->
  handler Instr_Dec d (cfg p (a :: l) dead Cpu_Running n prog out rc) =
  (Val tt, cfg p (wrap32 (a - 1) :: l) dead Cpu_Running n prog out rc).
Proof. intros C. run_handler. now rewrite push_cfg by (cbn [List.length]; lia). Qed.

Lemma h_Mod a b :
  Z.of_nat (List.length l) + 2 <= STACK_CAPACITY ->
  handler Instr_Mod d (cfg p (a :: b :: l) dead Cpu_Running n prog out rc) =
  if b =? 0
  then (Brk, cfg p l (b :: a :: dead) Cpu_Break n prog out rc)
  else (Val tt,
        cfg p (wrap32 (a mod b) :: l) (a :: dead) Cpu_Running n prog out rc).
Proof.
  intros C. run_handler. destruct (b =? 0); [reflexivity|].
  now rewrite push_cfg by (cbn [List.length]; lia).
Qed.

Lemma h_JNE a :
  handler Instr_JNE d (cfg p (a :: l) dead Cpu_Running n prog out rc) =
  (Val tt,
   cfg (if a =? 0 then p else wrap32 (p + immediate d)) l (a :: dead)
       Cpu_Running n prog out rc).
Proof. run_handler. now destruct (a =? 0). Qed.

Lemma h_JE a :
  handler Instr_JE d (cfg p (a :: l) dead Cpu_Running n prog out rc) =
  (Val tt,
   cfg (if a =? 0 then wrap32 (p + immediate d) else p) l (a :: dead)
       Cpu_Running n prog out rc).
Proof. run_handler. now destruct (a =? 0). Qed.

Lemma h_Print a :
  handler Instr_Print d (cfg p (a :: l) dead Cpu_Running n prog out rc) =
  (Val tt,
   cfg p l (a :: dead) Cpu_Running n prog (out ++ [Printed (sint32 a)]) rc).
Proof. now run_handler. Qed.

Lemma h_Halt :
  handler Instr_Halt d (cfg p l dead Cpu_Running n prog out rc) =
  (Val tt, cfg p l dead Cpu_Halted n prog out rc).
Proof. reflexivity. Qed.

End Handlers.

Lemma advance_cfg d p l dead st n prog out rc :
  advance d (cfg p l dead st n prog out rc) =
  cfg (wrap32 (p + length d)) l dead st (n + 1) prog out rc.
Proof. reflexivity. Qed.

Lemma decode_one raw i m :
  enumerator raw = Some i -> two_words i = false ->
  decode raw m = (Val {| opcode := raw; length := 1; immediate := 0 |}, m).
Proof.
  intros E T. unfold decode. rewrite E.
  destruct i; try discriminate; try reflexivity.
  apply enumerator_code in E. now subst raw.
Qed.

Lemma decode_two raw i m :
  enumerator raw = Some i -> two_words i = true ->
  0 <= pc m -> pc m + 1 < PROGRAM_SIZE -> pc m + 1 < modulus ->
  decode raw m =
  (Val {| opcode := raw; length := 2;
          immediate := sint32 (array_get (pc m + 1) (pmem m)) |}, m).
Proof.
  intros E T P0 P1 P2. unfold decode. rewrite E.
  assert (W : wrap32 (pc m + 1) = pc m + 1) by (apply wrap32_small; lia).
  destruct i; try discriminate; unfold bind, gets; rewrite W;
    (replace (pc m + 1 <? PROGRAM_SIZE) with true
       by (symmetry; apply Z.ltb_lt; lia)); reflexivity.
Qed.

(** One iteration of the loop of switched.c from a cpu of this form. *)
Lemma while_cfg_step fuel limit p l dead n prog out rc d i r m3 :
  n < limit -> 0 <= p < PROGRAM_SIZE ->
  decode (array_get p prog) (cfg p l dead Cpu_Running n prog out rc) =
  (Val d, cfg p l dead Cpu_Running n prog out rc) ->
  enumerator (opcode d) = Some i ->
  handler i d (cfg p l dead Cpu_Running n prog out rc) = (r, m3) ->
  (forall e, r <> Stop e) ->
  Switched.while_ (S fuel) limit (cfg p l dead Cpu_Running n prog out rc) =
  Switched.while_ fuel limit (advance d m3).
Proof.
  intros L P D E Hh NS.
  rewrite while_step by (cbn [cfg state steps]; auto).
  unfold bind.
  erewrite loop_body_in; eauto; cbn [cfg state pc pmem]; auto; lia.
Qed.

End Live.

(* ------------------------------------------------------------------ *)
(** ** Properties of the engines *)

Section Claims.
Context `{platform}.

Lemma reachable_stack_ok m :
  0 <= STACK_CAPACITY -> reachable m -> stack_ok m.
Proof.
  intros C R. induction R.
  - apply keeps_while. now apply init_stack_ok.
  - apply keeps_fetch_dispatch; [apply keeps_goto | now apply init_stack_ok].
  - now apply keeps_push.
  - now apply keeps_pop.
Qed.

(** C7.  In every cpu the engines go through, [-1 <= sp < STACK_CAPACITY].
    A [push] with [sp = STACK_CAPACITY - 1] writes the overflow diagnostic,
    sets the state to [Cpu_Break] and leaves the stack pointer and the
    stack as they are; a [pop] with [sp = -1] writes the underflow
    diagnostic, sets the state to [Cpu_Break], returns 0 and leaves the
    stack pointer and the stack as they are. *)
Theorem stack_discipline :
  0 <= STACK_CAPACITY ->
  (forall m, reachable m -> -1 <= sp m < STACK_CAPACITY) /\
  (forall v m, sp m = STACK_CAPACITY - 1 ->
     exists m', push v m = (Val tt, m') /\ state m' = Cpu_Break /\
                sp m' = sp m /\ stack m' = stack m /\
                stdout m' = stdout m ++ [Diag "Stack overflow"]) /\
  (forall m, sp m = -1 ->
     exists m', pop m = (Val 0, m') /\ state m' = Cpu_Break /\
                sp m' = sp m /\ stack m' = stack m /\
                stdout m' = stdout m ++ [Diag "Stack underflow"]).
Proof.
  intros C. split; [|split].
  - intros m R. now destruct (reachable_stack_ok m C R).
  - intros v m E. exists (faulted "Stack overflow" m).
    rewrite push_full by lia. now repeat split.
  - intros m E. exists (faulted "Stack underflow" m).
    rewrite pop_empty by lia. now repeat split.
Qed.

(** C3.  [Mod] on a running cpu whose stack holds [a] on top of [b] (two
    32-bit words) on top of [rest]: if [b] is zero the handler ends at its
    [break] with the state [Cpu_Break], both operands popped and nothing
    pushed; otherwise it pushes [a mod b], so that the stack holds
    [a mod b] on top of [rest].  In both cases the program counter and the
    output are left alone. *)
Theorem mod_semantics d m a b rest :
  stack_ok m -> state m = Cpu_Running ->
  stack_dump m = a :: b :: rest -> word a -> word b ->
  exists r m',
    handler Instr_Mod d m = (r, m') /\
    pc m' = pc m /\ stdout m' = stdout m /\
    (b = 0 ->
       r = Brk /\ state m' = Cpu_Break /\ stack_dump m' = rest /\
       stack m' = stack m) /\
    (b <> 0 ->
       r = Val tt /\ state m' = Cpu_Running /\
       stack_dump m' = a mod b :: rest).
Proof.
  intros Hok R Hd Wa Wb.
  assert (Hlen : Z.of_nat (List.length rest) + 2 <= STACK_CAPACITY).
  { destruct Hok as [B L]. apply (f_equal (@List.length Z)) in Hd.
    unfold stack_dump in Hd. rewrite length_rev, length_firstn in Hd.
    cbn [List.length] in Hd. lia. }
  rewrite (cfg_of_dump m Hok), Hd, R.
  set (dead := skipn _ _). rewrite h_Mod by exact Hlen.
  destruct (Z.eqb_spec b 0) as [E|N]; do 2 eexists;
    (split; [reflexivity|]); cbn [cfg pc stdout state]; repeat split;
    try contradiction; try reflexivity; try apply stack_dump_cfg.
  - cbn [cfg stack rev]. now rewrite <- !app_assoc.
  - rewrite stack_dump_cfg. f_equal. apply wrap32_small.
    unfold word in *. pose proof (Z.mod_pos_bound a b). lia.
Qed.

Lemma pop_nonempty m :
  0 <= sp m ->
  pop m = (Val (array_get (sp m) (stack m)), set_sp (sp m - 1) m).
Proof.
  intros L. apply Z.ltb_ge in L. unfold pop, bind, gets. now rewrite L.
Qed.

(** C6.  On a running cpu with [pc = P], both words of the instruction
    inside the program and [I] the immediate, a step that executes a
    [Jump], a [JE] that finds zero or a [JNE] that finds a value other than
    zero leaves [pc = P + I + 2] in the 32-bit arithmetic of the program
    counter, that is [P + I + 2] itself whenever that is a 32-bit word.
    The step is one iteration of the loop of switched.c and, in
    threaded.c, one dispatch up to the end of its [ADVANCE_PC()], after
    which the run goes on from the same cpu or leaves the loop. *)
Theorem jump_addressing m P I f limit :
  PROGRAM_SIZE <= modulus ->
  state m = Cpu_Running -> pc m = P -> 0 <= P -> P + 1 < PROGRAM_SIZE ->
  I = sint32 (array_get (P + 1) (pmem m)) ->
  jump_taken m ->
  exists m',
    Switched.loop_body m = (Val tt, m') /\
    Threaded.fetch_dispatch (Threaded.goto_ (S f) limit) m =
      (if steps m + 1 <? limit
       then Threaded.fetch_dispatch (Threaded.goto_ f limit) m'
       else (Brk, m')) /\
    pc m' = wrap32 (P + I + 2) /\
    (0 <= P + I + 2 < modulus -> pc m' = P + I + 2).
Proof.
  intros PS R EP P0 P1 EI T.
  assert (In : pc m < PROGRAM_SIZE) by lia.
  set (d := {| opcode := array_get (pc m) (pmem m); length := 2;
               immediate := I |}).
  assert (Hstep : exists i m3,
             decode (array_get (pc m) (pmem m)) m = (Val d, m) /\
             enumerator (opcode d) = Some i /\
             handler i d m = (Val tt, m3) /\
             state m3 = Cpu_Running /\ steps m3 = steps m /\
             pc m3 = wrap32 (P + I)).
  { assert (D : forall i, enumerator (array_get (pc m) (pmem m)) = Some i ->
                          two_words i = true ->
                          decode (array_get (pc m) (pmem m)) m = (Val d, m)).
    { intros i E W. rewrite (decode_two _ _ _ E W) by lia.
      unfold d. now rewrite EI, EP. }
    assert (O : forall i, array_get (pc m) (pmem m) = code i ->
                          enumerator (opcode d) = Some i).
    { intros i E. unfold d. cbn [opcode]. rewrite E.
      apply enumerator_of_code. }
    destruct T as [E | [(E & S0 & Top) | (E & S0 & Top)]]; cbv zeta in E.
    - exists Instr_Jump, (set_pc (wrap32 (pc m + I)) m).
      split; [apply (D Instr_Jump); [rewrite E|]; reflexivity|].
      split; [now apply O|]. rewrite <- EP. repeat split; auto.
    - exists Instr_JE, (set_pc (wrap32 (pc m + I)) (set_sp (sp m - 1) m)).
      split; [apply (D Instr_JE); [rewrite E|]; reflexivity|].
      split; [now apply O|]. rewrite <- EP. repeat split; auto.
      unfold handler, bind at 1. rewrite (pop_nonempty _ S0), Top.
      unfold BAIL_ON_ERROR, bind, gets. cbn [state set_sp]. now rewrite R.
    - exists Instr_JNE, (set_pc (wrap32 (pc m + I)) (set_sp (sp m - 1) m)).
      split; [apply (D Instr_JNE); [rewrite E|]; reflexivity|].
      split; [now apply O|]. rewrite <- EP. repeat split; auto.
      unfold handler, bind at 1. rewrite (pop_nonempty _ S0).
      apply Z.eqb_neq in Top. rewrite Top.
      unfold BAIL_ON_ERROR, bind, gets. cbn [state set_sp]. now rewrite R. }
  destruct Hstep as (i & m3 & D & E & Hh & R3 & N3 & P3).
  exists (advance d m3).
  assert (Epc : pc (advance d m3) = wrap32 (P + I + 2)).
  { cbn [advance pc set_steps set_pc]. rewrite P3. cbn [length d].
    apply wrap32_add_l. }
  split; [|split; [|split]].
  - apply (loop_body_in m d m i (Val tt) m3); auto. discriminate.
  - rewrite (fetch_dispatch_in _ _ _ _ _ In D E).
    rewrite <- (statements_label_of i) in Hh. rewrite <- N3.
    destruct (Z.ltb_spec (steps m3 + 1) limit).
    + now apply goto_next.
    + apply goto_exit; auto.
  - exact Epc.
  - intros W. rewrite Epc. now apply wrap32_small.
Qed.

(** *** Runs of whole programs *)

Lemma init_cfg prog k :
  Z.of_nat k <= STACK_CAPACITY ->
  init prog =
  cfg 0 [] (repeat 0 k ++ repeat 0 (Z.to_nat STACK_CAPACITY - k))
      Cpu_Running 0 prog [] 0.
Proof.
  intros C. unfold init, cfg. cbn [List.length rev app]. f_equal.
  rewrite <- repeat_app. f_equal. lia.
Qed.

Lemma agree_dump ms mt : agree ms mt -> stack_dump ms = stack_dump mt.
Proof.
  intros (S1 & _ & S2 & _). unfold stack_dump. now rewrite S1, S2.
Qed.

Ltac norm :=
  match goal with
  | |- context [cfg ?p ?l ?d ?st ?n ?prog ?o ?r] =>
      let p' := eval vm_compute in p in
      let l' := eval vm_compute in l in
      let n' := eval vm_compute in n in
      let o' := eval vm_compute in o in
      change (cfg p l d st n prog o r) with (cfg p' l' d st n' prog o' r)
  end.

Ltac handler_eq :=
  first [ apply h_Push | apply h_Swap | apply h_Dup | apply h_Over
        | apply h_Mul | apply h_Dec | apply h_JNE | apply h_JE
        | apply h_Print | apply h_Halt
        | rewrite h_Mod; [reflexivity|] ];
  cbn [List.length]; lia.

(** One iteration of the loop of switched.c on a cpu in [cfg] form. *)
Ltac sw_step :=
  erewrite while_cfg_step;
  [ | lia | lia
    | first [ reflexivity
            | eapply decode_two;
              [ reflexivity | reflexivity
              | cbn [cfg pc]; unfold modulus; lia .. ] ]
    | reflexivity
    | handler_eq
    | intros ?; discriminate ];
  rewrite advance_cfg; norm.

Lemma factorial_switched limit :
  16 <= PROGRAM_SIZE -> 3 <= STACK_CAPACITY -> 41 <= limit ->
  exists m,
    Switched.main limit (Factorial 5) = (Val 0, m) /\
    stdout m = [Printed 120] /\ state m = Cpu_Halted /\ steps m = 41.
Proof.
  intros PS C L.
  assert (R : exists m, Switched.run limit (init (Factorial 5)) = (Val tt, m)
                        /\ stdout m = [Printed 120] /\ state m = Cpu_Halted
                        /\ steps m = 41).
  { unfold Switched.run, enclose.
    rewrite (init_cfg _ 3) by lia. cbn [repeat app].
    replace (Z.to_nat limit) with (41 + Z.to_nat (limit - 41))%nat by lia.
    cbn [Nat.add]. do 41 sw_step.
    rewrite while_done by (left; discriminate).
    eexists. split; [reflexivity|]. now repeat split. }
  destruct R as (m & R & O & S & N). exists m.
  rewrite (main_of_run_switched _ _ _ R)
    by (apply final_assertion_true; left; congruence).
  unfold exit_code. rewrite S. auto.
Qed.

(** C9.  [Push 5, Push 1, Swap, Swap, Over, Mul, Swap, Dec, Dup, JNE -8,
    Swap, Print, Halt], run with a step limit of at least 41 under either
    engine, prints 120 once, prints nothing else and ends in state
    [Cpu_Halted] with exit code 0. *)
Theorem factorial_scenario limit :
  16 <= PROGRAM_SIZE -> 3 <= STACK_CAPACITY -> 41 <= limit ->
  exists ms mt,
    Switched.main limit (Factorial 5) = (Val 0, ms) /\
    Threaded.main limit (Factorial 5) = (Val 0, mt) /\
    stdout ms = [Printed 120] /\ state ms = Cpu_Halted /\
    stdout mt = [Printed 120] /\ state mt = Cpu_Halted.
Proof.
  intros PS C L.
  destruct (factorial_switched limit PS C L) as (m & E & O & S & N).
  destruct (engines_agree limit (Factorial 5)) as (c & ms & mt & Es & Et & A & _);
    [lia|].
  rewrite E in Es. inversion Es; subst c ms. exists m, mt.
  destruct A as (_ & A1 & _ & _ & A2 & _).
  repeat split; auto; congruence.
Qed.

Lemma mod_scenario_switched limit :
  6 <= PROGRAM_SIZE -> 2 <= STACK_CAPACITY -> 4 <= limit ->
  exists m,
    Switched.main limit ModScenario = (Val 0, m) /\
    state m = Cpu_Halted /\ steps m = 4 /\ stack_dump m = [0] /\
    stdout m = [].
Proof.
  intros PS C L.
  assert (R : exists m, Switched.run limit (init ModScenario) = (Val tt, m)
                        /\ state m = Cpu_Halted /\ steps m = 4
                        /\ stack_dump m = [0] /\ stdout m = []).
  { unfold Switched.run, enclose.
    rewrite (init_cfg _ 2) by lia. cbn [repeat app].
    replace (Z.to_nat limit) with (4 + Z.to_nat (limit - 4))%nat by lia.
    cbn [Nat.add]. do 4 sw_step.
    rewrite while_done by (left; discriminate).
    eexists. split; [reflexivity|]. rewrite stack_dump_cfg.
    now repeat split. }
  destruct R as (m & R & S & N & D & O). exists m.
  rewrite (main_of_run_switched _ _ _ R)
    by (apply final_assertion_true; left; congruence).
  unfold exit_code. rewrite S. auto.
Qed.

(** C2, as the code has it.  [Push 10, Push 0, Mod, Halt], run with a step
    limit of at least 4 under either engine, does not fault: [Mod] pops 0
    and then the divisor 10 and pushes [0 mod 10]; the run ends in state
    [Cpu_Halted] after 4 steps with the stack holding the single value 0
    and nothing written. *)
Theorem mod_scenario limit :
  6 <= PROGRAM_SIZE -> 2 <= STACK_CAPACITY -> 4 <= limit ->
  exists ms mt,
    Switched.main limit ModScenario = (Val 0, ms) /\
    Threaded.main limit ModScenario = (Val 0, mt) /\
    state ms = Cpu_Halted /\ steps ms = 4 /\ stack_dump ms = [0] /\
    stdout ms = [] /\
    state mt = Cpu_Halted /\ steps mt = 4 /\ stack_dump mt = [0] /\
    stdout mt = [].
Proof.
  intros PS C L.
  destruct (mod_scenario_switched limit PS C L) as (m & E & S & N & D & O).
  destruct (engines_agree limit ModScenario) as (c & ms & mt & Es & Et & A & _);
    [lia|].
  rewrite E in Es. inversion Es; subst c ms. exists m, mt.
  pose proof (agree_dump _ _ A) as AD.
  destruct A as (_ & A1 & _ & _ & A2 & _ & A3).
  destruct A3 as [_ A3]; [congruence|].
  repeat split; auto; congruence.
Qed.

(** The first step of either engine on a program whose first instruction
    has one word: the cpu it leaves when the handler ends normally and the
    run ends there. *)
Lemma first_step_switched limit prog d i m3 :
  0 < PROGRAM_SIZE -> 1 <= limit ->
  decode (array_get 0 prog) (init prog) = (Val d, init prog) ->
  enumerator (opcode d) = Some i ->
  handler i d (init prog) = (Val tt, m3) \/
  handler i d (init prog) = (Brk, m3) ->
  state m3 <> Cpu_Running ->
  Switched.run limit (init prog) = (Val tt, advance d m3).
Proof.
  intros PS L D E Hh Hs. unfold Switched.run, enclose.
  replace (Z.to_nat limit) with (S (Z.to_nat (limit - 1))) by lia.
  rewrite while_step by (cbn [init state steps]; auto; lia).
  unfold bind.
  assert (B : Switched.loop_body (init prog) = (Val tt, advance d m3)).
  { destruct Hh as [Hh|Hh];
      eapply loop_body_in; eauto; try discriminate; reflexivity. }
  rewrite B. now rewrite while_done by (left; exact Hs).
Qed.

(** C8.  [decode] returns an instruction of the catalog for every word; a
    word outside the catalog is decoded as a [Break] of one word, without
    a diagnostic.  A program whose first word is outside the
    catalog, run with a step limit of at least 1 under either engine, ends
    in state [Cpu_Break] with one step counted and the exit code 1. *)
Theorem undefined_opcode :
  (forall raw m, exists d m',
     decode raw m = (Val d, m') /\
     exists i, enumerator (opcode d) = Some i) /\
  (forall raw m, ~ (0 <= raw <= 18) ->
     decode raw m =
     (Val {| opcode := code Instr_Break; length := 1; immediate := 0 |}, m))
  /\
  (forall prog limit,
     0 < PROGRAM_SIZE -> 1 <= limit -> ~ (0 <= array_get 0 prog <= 18) ->
     exists ms mt,
       Switched.main limit prog = (Val 1, ms) /\
       state ms = Cpu_Break /\ steps ms = 1 /\
       Threaded.main limit prog = (Val 1, mt) /\
       state mt = Cpu_Break /\ steps mt = 1).
Proof.
  assert (D : forall raw m, ~ (0 <= raw <= 18) ->
     decode raw m =
     (Val {| opcode := code Instr_Break; length := 1; immediate := 0 |}, m)).
  { intros raw m O. unfold decode. now rewrite (enumerator_outside _ O). }
  split; [|split; [exact D|]].
  { intros raw m. destruct (decode_catalog raw m) as (d & out & E & I & _).
    now exists d, (set_stdout out m). }
  intros prog limit PS L O.
  set (d := {| opcode := code Instr_Break; length := 1; immediate := 0 |}).
  set (m1 := advance d (set_state Cpu_Break (init prog))).
  assert (Rs : Switched.run limit (init prog) = (Val tt, m1)).
  { apply (first_step_switched limit prog d Instr_Break);
      [exact PS | exact L | now apply D | reflexivity | left; reflexivity
      | discriminate]. }
  assert (Rt : Threaded.run limit (init prog) = (Val tt, m1)).
  { unfold Threaded.run, enclose.
    rewrite (fetch_dispatch_in _ (init prog) d (init prog) Instr_Break);
      [| exact PS | now apply D | reflexivity].
    erewrite goto_exit; [reflexivity | reflexivity | left; discriminate]. }
  exists m1, m1.
  rewrite (main_of_run_switched _ _ _ Rs), (main_of_run_threaded _ _ _ Rt)
    by reflexivity.
  now repeat split.
Qed.

(** C1 fails on a stack underflow.  [Print] on the empty stack, run with a
    step limit of at least 1: both engines end in [Cpu_Break], but
    switched.c counts the step and advances the program counter
    ([steps = 1], [pc = 1]) and threaded.c does neither ([steps = 0],
    [pc = 0]). *)
Theorem engines_differ_on_underflow limit :
  0 < PROGRAM_SIZE -> 1 <= limit ->
  exists ms mt,
    Switched.main limit (words [code Instr_Print]) = (Val 1, ms) /\
    Threaded.main limit (words [code Instr_Print]) = (Val 1, mt) /\
    state ms = Cpu_Break /\ state mt = Cpu_Break /\
    steps ms = 1 /\ pc ms = 1 /\ steps mt = 0 /\ pc mt = 0.
Proof.
  intros PS L.
  set (prog := words [code Instr_Print]).
  set (d := {| opcode := code Instr_Print; length := 1; immediate := 0 |}).
  set (m3 := faulted "Stack underflow" (init prog)).
  assert (Rs : Switched.run limit (init prog) = (Val tt, advance d m3)).
  { apply (first_step_switched limit prog d Instr_Print);
      [exact PS | exact L | reflexivity | reflexivity | right; reflexivity
      | discriminate]. }
  assert (Rt : Threaded.run limit (init prog) = (Val tt, m3)).
  { unfold Threaded.run, enclose.
    rewrite (fetch_dispatch_in _ (init prog) d (init prog) Instr_Print);
      [| exact PS | reflexivity | reflexivity].
    erewrite goto_break; reflexivity. }
  exists (advance d m3), m3.
  rewrite (main_of_run_switched _ _ _ Rs), (main_of_run_threaded _ _ _ Rt)
    by reflexivity.
  now repeat split.
Qed.

(** C10 fails in threaded.c at step limit 0.  On a program that starts
    with [Nop], threaded.c executes one instruction before it first looks
    at the limit: the loop ends with [steps = 1] in state [Cpu_Running] and
    the assertion after the loop fails.  switched.c executes nothing and
    returns 0. *)
Theorem threaded_overruns_zero_limit prog :
  0 < PROGRAM_SIZE -> array_get 0 prog = code Instr_Nop ->
  exists m,
    Threaded.main 0 prog = (Stop AssertFailed, m) /\
    steps m = 1 /\ state m = Cpu_Running /\
    Switched.main 0 prog = (Val 0, init prog).
Proof.
  intros PS E.
  set (d := {| opcode := code Instr_Nop; length := 1; immediate := 0 |}).
  assert (Rt : Threaded.run 0 (init prog) = (Val tt, advance d (init prog))).
  { unfold Threaded.run, enclose.
    rewrite (fetch_dispatch_in _ (init prog) d (init prog) Instr_Nop);
      [| exact PS | cbn [init pc pmem]; rewrite E; reflexivity | reflexivity].
    erewrite goto_exit; [reflexivity | reflexivity |].
    right. cbn. lia. }
  exists (advance d (init prog)). split; [|now repeat split].
  unfold Threaded.main, bind. now rewrite Rt.
Qed.

(** C5 fails in threaded.c.  [Jump -3] at address 0 leaves the program
    counter at [0xffffffff], outside the program.  switched.c then stops at
    the fetch, with the diagnostic, [steps = 1] and the program counter
    where it was; threaded.c goes on to the [Break] handler and its
    [ADVANCE_PC()]: [steps = 2] and the program counter wrapped to 0. *)
Theorem threaded_dispatches_out_of_bounds limit :
  2 <= PROGRAM_SIZE < modulus -> 2 <= limit ->
  exists ms mt,
    Switched.main limit (words [code Instr_Jump; -3]) = (Val 1, ms) /\
    Threaded.main limit (words [code Instr_Jump; -3]) = (Val 1, mt) /\
    stdout ms = [Diag "PC out of bounds"] /\
    stdout mt = [Diag "PC out of bounds"] /\
    state ms = Cpu_Break /\ state mt = Cpu_Break /\
    steps ms = 1 /\ pc ms = modulus - 1 /\
    steps mt = 2 /\ pc mt = 0.
Proof.
  intros PS L.
  set (prog := words [code Instr_Jump; -3]).
  set (d := {| opcode := code Instr_Jump; length := 2; immediate := -3 |}).
  set (dB := {| opcode := code Instr_Break; length := 1; immediate := 0 |}).
  set (m1 := advance d (set_pc (wrap32 (0 + -3)) (init prog))).
  assert (D : decode (array_get 0 prog) (init prog) = (Val d, init prog)).
  { rewrite (decode_two _ Instr_Jump); try reflexivity;
      cbn [init pc]; unfold modulus in *; lia. }
  assert (O : PROGRAM_SIZE <= pc m1) by (cbn; unfold modulus in *; lia).
  assert (Rs : Switched.run limit (init prog) =
               (Val tt, faulted "PC out of bounds" m1)).
  { unfold Switched.run, enclose.
    replace (Z.to_nat limit) with (S (S (Z.to_nat (limit - 2)))) by lia.
    rewrite while_step by (cbn [init state steps]; auto; lia).
    unfold bind at 1.
    rewrite (loop_body_in (init prog) d (init prog) Instr_Jump (Val tt)
               (set_pc (wrap32 (0 + -3)) (init prog)));
      [| reflexivity | cbn [init pc]; lia | exact D | reflexivity
       | reflexivity | discriminate].
    fold m1. rewrite while_step by (cbn; auto; lia).
    unfold bind. now rewrite (loop_body_out _ O). }
  assert (Rt : Threaded.run limit (init prog) =
               (Val tt,
                advance dB (set_state Cpu_Break
                              (faulted "PC out of bounds" m1)))).
  { unfold Threaded.run, enclose.
    rewrite (fetch_dispatch_in _ (init prog) d (init prog) Instr_Jump);
      [| cbn [init pc]; lia | exact D | reflexivity].
    erewrite goto_next; [| reflexivity | reflexivity | cbn; lia].
    fold m1. rewrite (fetch_dispatch_out _ _ O).
    replace (Z.to_nat limit) with (S (Z.to_nat (limit - 1))) by lia.
    erewrite goto_exit; [reflexivity | reflexivity | left; discriminate]. }
  do 2 eexists.
  rewrite (main_of_run_switched _ _ _ Rs), (main_of_run_threaded _ _ _ Rt)
    by reflexivity.
  now repeat split.
Qed.

End Claims.

(* ------------------------------------------------------------------ *)
(** ** The statements at concrete inputs *)

Lemma stack_discipline_witness :
  0 <= @STACK_CAPACITY small_platform /\
  (forall m, @reachable small_platform m -> -1 <= sp m < 32).
Proof.
  assert (C : 0 <= @STACK_CAPACITY small_platform) by (cbn; lia).
  split; [exact C|]. exact (proj1 (@stack_discipline small_platform C)).
Defined.

Lemma mod_semantics_witness :
  @stack_ok small_platform seven_over_three /\
  state seven_over_three = Cpu_Running /\
  stack_dump seven_over_three = [7; 3] /\ word 7 /\ word 3 /\
  exists r m',
    @handler small_platform Instr_Mod (mk_decode 17 1 0) seven_over_three
    = (r, m') /\
    pc m' = 0 /\ stdout m' = [] /\
    (3 = 0 ->
       r = Brk /\ state m' = Cpu_Break /\ stack_dump m' = [] /\
       stack m' = stack seven_over_three) /\
    (3 <> 0 ->
       r = Val tt /\ state m' = Cpu_Running /\
       stack_dump m' = [7 mod 3]).
Proof.
  assert (H1 : @stack_ok small_platform seven_over_three)
    by (split; [cbn; lia | reflexivity]).
  assert (H2 : word 7) by (unfold word, modulus; lia).
  assert (H3 : word 3) by (unfold word, modulus; lia).
  repeat (split; [first [assumption | reflexivity]|]).
  exact (@mod_semantics small_platform (mk_decode 17 1 0) seven_over_three
           7 3 [] H1 eq_refl eq_refl H2 H3).
Defined.

Lemma jump_addressing_witness :
  @PROGRAM_SIZE small_platform <= modulus /\
  0 <= 0 /\ 0 + 1 < @PROGRAM_SIZE small_platform /\
  5 = sint32 (array_get (0 + 1) (words [code Instr_Jump; 5])) /\
  jump_taken (@init small_platform (words [code Instr_Jump; 5])) /\
  exists m',
    @Switched.loop_body small_platform
      (@init small_platform (words [code Instr_Jump; 5])) = (Val tt, m') /\
    pc m' = 0 + 5 + 2.
Proof.
  assert (H1 : @PROGRAM_SIZE small_platform <= modulus)
    by (unfold modulus; cbn; lia).
  assert (H2 : 0 + 1 < @PROGRAM_SIZE small_platform) by (cbn; lia).
  assert (H3 : 5 = sint32 (array_get (0 + 1) (words [code Instr_Jump; 5])))
    by reflexivity.
  assert (H4 : jump_taken (@init small_platform (words [code Instr_Jump; 5])))
    by (left; reflexivity).
  repeat (split; [first [assumption | lia]|]).
  destruct (@jump_addressing small_platform
              (@init small_platform (words [code Instr_Jump; 5])) 0 5 O 10
              H1 eq_refl eq_refl (Z.le_refl 0) H2 H3 H4)
    as (m' & E & _ & _ & P).
  exists m'. split; [exact E|]. apply P. unfold modulus. lia.
Defined.

Lemma undefined_opcode_witness :
  0 < @PROGRAM_SIZE small_platform /\ 1 <= 5 /\
  ~ (0 <= array_get 0 (words [99]) <= 18) /\
  exists ms mt,
    @Switched.main small_platform 5 (words [99]) = (Val 1, ms) /\
    state ms = Cpu_Break /\ steps ms = 1 /\
    @Threaded.main small_platform 5 (words [99]) = (Val 1, mt) /\
    state mt = Cpu_Break /\ steps mt = 1.
Proof.
  assert (H1 : 0 < @PROGRAM_SIZE small_platform) by reflexivity.
  assert (H2 : 1 <= 5) by lia.
  assert (H3 : ~ (0 <= array_get 0 (words [99]) <= 18))
    by (vm_compute; intros [_ A]; now apply A).
  repeat (split; [assumption|]).
  exact (proj2 (proj2 (@undefined_opcode small_platform))
           (words [99]) 5 H1 H2 H3).
Defined.

Lemma factorial_scenario_witness :
  16 <= @PROGRAM_SIZE small_platform /\
  3 <= @STACK_CAPACITY small_platform /\ 41 <= 1000 /\
  exists ms mt,
    @Switched.main small_platform 1000 (Factorial 5) = (Val 0, ms) /\
    @Threaded.main small_platform 1000 (Factorial 5) = (Val 0, mt) /\
    stdout ms = [Printed 120] /\ state ms = Cpu_Halted /\
    stdout mt = [Printed 120] /\ state mt = Cpu_Halted.
Proof.
  assert (H1 : 16 <= @PROGRAM_SIZE small_platform) by (cbn; lia).
  assert (H2 : 3 <= @STACK_CAPACITY small_platform) by (cbn; lia).
  assert (H3 : 41 <= 1000) by lia.
  repeat (split; [assumption|]).
  exact (@factorial_scenario small_platform 1000 H1 H2 H3).
Defined.

Lemma mod_scenario_witness :
  6 <= @PROGRAM_SIZE small_platform /\
  2 <= @STACK_CAPACITY small_platform /\ 4 <= 1000 /\
  exists ms mt,
    @Switched.main small_platform 1000 ModScenario = (Val 0, ms) /\
    @Threaded.main small_platform 1000 ModScenario = (Val 0, mt) /\
    state ms = Cpu_Halted /\ steps ms = 4 /\ stack_dump ms = [0] /\
    stdout ms = [] /\
    state mt = Cpu_Halted /\ steps mt = 4 /\ stack_dump mt = [0] /\
    stdout mt = [].
Proof.
  assert (H1 : 6 <= @PROGRAM_SIZE small_platform) by (cbn; lia).
  assert (H2 : 2 <= @STACK_CAPACITY small_platform) by (cbn; lia).
  assert (H3 : 4 <= 1000) by lia.
  repeat (split; [assumption|]).
  exact (@mod_scenario small_platform 1000 H1 H2 H3).
Defined.

Lemma engines_differ_on_underflow_witness :
  0 < @PROGRAM_SIZE small_platform /\ 1 <= 10 /\
  exists ms mt,
    @Switched.main small_platform 10 (words [code Instr_Print]) = (Val 1, ms)
    /\
    @Threaded.main small_platform 10 (words [code Instr_Print]) = (Val 1, mt)
    /\
    state ms = Cpu_Break /\ state mt = Cpu_Break /\
    steps ms = 1 /\ pc ms = 1 /\ steps mt = 0 /\ pc mt = 0.
Proof.
  assert (H1 : 0 < @PROGRAM_SIZE small_platform) by reflexivity.
  assert (H2 : 1 <= 10) by lia.
  repeat (split; [assumption|]).
  exact (@engines_differ_on_underflow small_platform 10 H1 H2).
Defined.

Lemma threaded_overruns_zero_limit_witness :
  0 < @PROGRAM_SIZE small_platform /\
  array_get 0 (words [code Instr_Nop]) = code Instr_Nop /\
  exists m,
    @Threaded.main small_platform 0 (words [code Instr_Nop]) =
    (Stop AssertFailed, m) /\
    steps m = 1 /\ state m = Cpu_Running /\
    @Switched.main small_platform 0 (words [code Instr_Nop]) =
    (Val 0, @init small_platform (words [code Instr_Nop])).
Proof.
  assert (H1 : 0 < @PROGRAM_SIZE small_platform) by reflexivity.
  repeat (split; [first [assumption | reflexivity]|]).
  exact (@threaded_overruns_zero_limit small_platform
           (words [code Instr_Nop]) H1 eq_refl).
Defined.

Lemma threaded_dispatches_out_of_bounds_witness :
  2 <= @PROGRAM_SIZE small_platform < modulus /\ 2 <= 10 /\
  exists ms mt,
    @Switched.main small_platform 10 (words [code Instr_Jump; -3])
    = (Val 1, ms) /\
    @Threaded.main small_platform 10 (words [code Instr_Jump; -3])
    = (Val 1, mt) /\
    stdout ms = [Diag "PC out of bounds"] /\
    stdout mt = [Diag "PC out of bounds"] /\
    state ms = Cpu_Break /\ state mt = Cpu_Break /\
    steps ms = 1 /\ pc ms = modulus - 1 /\
    steps mt = 2 /\ pc mt = 0.
Proof.
  assert (H1 : 2 <= @PROGRAM_SIZE small_platform < modulus)
    by (unfold modulus; cbn; lia).
  assert (H2 : 2 <= 10) by lia.
  split; [exact H1|]. split; [exact H2|].
  exact (@threaded_dispatches_out_of_bounds small_platform 10 H1 H2).
Defined.

(** C2 as stated fails: on [Push 10, Push 0, Mod, Halt] neither engine ends
    in [Cpu_Break] after 3 steps with 10 on the stack. *)
Lemma mod_scenario_counterexample :
  ~ (state (snd (@Switched.main small_platform 1000 ModScenario)) = Cpu_Break
     /\ steps (snd (@Switched.main small_platform 1000 ModScenario)) = 3
     /\ stack_dump (snd (@Switched.main small_platform 1000 ModScenario))
        = [10]) /\
  ~ (state (snd (@Threaded.main small_platform 1000 ModScenario)) = Cpu_Break
     /\ steps (snd (@Threaded.main small_platform 1000 ModScenario)) = 3
     /\ stack_dump (snd (@Threaded.main small_platform 1000 ModScenario))
        = [10]).
Proof. split; vm_compute; intros [E _]; discriminate. Qed.

(** C4 as stated fails: a [Mod] with a zero divisor ends the run in
    [Cpu_Break] with no diagnostic line at all, and [Swap] on the empty
    stack writes the underflow line twice. *)
Lemma fault_diagnostics_counterexample :
  state (snd (@Switched.main small_platform 1000 ModByZero)) = Cpu_Break /\
  List.length (stdout (snd (@Switched.main small_platform 1000 ModByZero)))
  <> 1%nat /\
  stdout (snd (@Switched.main small_platform 1000 (words [code Instr_Swap])))
  = [Diag "Stack underflow"; Diag "Stack underflow"] /\
  List.length
    (stdout (snd (@Switched.main small_platform 1000
                    (words [code Instr_Swap])))) <> 1%nat.
Proof. vm_compute. repeat split; discriminate. Qed.

(* ------------------------------------------------------------------ *)
(** ** One step of both engines, instruction by instruction *)

Section Steps.
Context `{platform}.

Lemma full_step_intro m d m2 i m3 :
  state m = Cpu_Running -> pc m < PROGRAM_SIZE ->
  decode (array_get (pc m) (pmem m)) m = (Val d, m2) ->
  enumerator (opcode d) = Some i ->
  handler i d m2 = (Val tt, m3) ->
  full_step m (advance d m3).
Proof.
  intros R In D E Hh. split.
  - apply (loop_body_in m d m2 i (Val tt) m3); auto. discriminate.
  - intros f limit. rewrite (fetch_dispatch_in _ _ _ _ _ In D E).
    rewrite <- (statements_label_of i) in Hh.
    cbn [advance state steps set_steps set_pc].
    destruct (state m3) eqn:R3; cbn [is_running andb].
    + destruct (Z.ltb_spec (steps m3 + 1) limit).
      * now apply goto_next.
      * apply goto_exit; auto.
    + apply goto_exit; auto. left. congruence.
    + apply goto_exit; auto. left. congruence.
Qed.

(** A step on an instruction of one word, from a running cpu in [cfg]
    form. *)
Lemma full_step_one i p l dead n prog out rc m3 :
  0 <= p < PROGRAM_SIZE -> array_get p prog = code i ->
  two_words i = false ->
  handler i {| opcode := code i; length := 1; immediate := 0 |}
    (cfg p l dead Cpu_Running n prog out rc) = (Val tt, m3) ->
  full_step (cfg p l dead Cpu_Running n prog out rc)
    (advance {| opcode := code i; length := 1; immediate := 0 |} m3).
Proof.
  intros P E T Hh.
  apply (full_step_intro _ _ (cfg p l dead Cpu_Running n prog out rc) i);
    cbn [cfg state pc pmem opcode]; auto; try lia.
  - rewrite E. apply (decode_one _ i); auto using enumerator_of_code.
  - apply enumerator_of_code.
Qed.

(** A step on an instruction of two words. *)
Lemma full_step_two i p l dead n prog out rc m3 :
  0 <= p -> p + 1 < PROGRAM_SIZE -> p + 1 < modulus ->
  array_get p prog = code i -> two_words i = true ->
  handler i {| opcode := code i; length := 2;
               immediate := sint32 (array_get (p + 1) prog) |}
    (cfg p l dead Cpu_Running n prog out rc) = (Val tt, m3) ->
  full_step (cfg p l dead Cpu_Running n prog out rc)
    (advance {| opcode := code i; length := 2;
                immediate := sint32 (array_get (p + 1) prog) |} m3).
Proof.
  intros P0 P1 P2 E T Hh.
  apply (full_step_intro _ _ (cfg p l dead Cpu_Running n prog out rc) i);
    cbn [cfg state pc pmem opcode]; auto; try lia.
  - rewrite E.
    rewrite (decode_two _ i); cbn [cfg pc pmem];
      auto using enumerator_of_code.
  - apply enumerator_of_code.
Qed.

End Steps.

(* ------------------------------------------------------------------ *)
(** ** One step of both engines, instruction by instruction *)

Section InstructionSteps.
Context `{platform}.

Ltac exec_handler :=
  unfold handler;
  repeat (unfold bind at 1;
          first [ rewrite pop_cfg | rewrite bail_cfg
                | rewrite push_cfg by (cbn [List.length]; lia) ]).

Ltac step_one i :=
  rewrite <- (advance_cfg {| opcode := code i; length := 1; immediate := 0 |});
  apply full_step_one; auto.

Ltac step_two i p prog :=
  rewrite <- (advance_cfg {| opcode := code i; length := 2;
                            immediate := sint32 (array_get (p + 1) prog) |});
  apply full_step_two; auto.

Lemma word_wrap v : word v -> wrap32 v = v.
Proof. apply wrap32_small. Qed.

Section OnCfg.
Variables (p : Z) (l dead : list Z) (n : Z) (prog : list Z)
          (out : list event) (rc : nat).

Lemma fs_Nop :
  0 <= p < PROGRAM_SIZE -> array_get p prog = code Instr_Nop ->
  full_step (cfg p l dead Cpu_Running n prog out rc)
    (cfg (wrap32 (p + 1)) l dead Cpu_Running (n + 1) prog out rc).
Proof. intros P E. now step_one Instr_Nop. Qed.

Lemma fs_Halt :
  0 <= p < PROGRAM_SIZE -> array_get p prog = code Instr_Halt ->
  full_step (cfg p l dead Cpu_Running n prog out rc)
    (cfg (wrap32 (p + 1)) l dead Cpu_Halted (n + 1) prog out rc).
Proof. intros P E. now step_one Instr_Halt. Qed.

Lemma fs_Break :
  0 <= p < PROGRAM_SIZE -> array_get p prog = code Instr_Break ->
  full_step (cfg p l dead Cpu_Running n prog out rc)
    (cfg (wrap32 (p + 1)) l dead Cpu_Break (n + 1) prog out rc).
Proof. intros P E. now step_one Instr_Break. Qed.

Lemma fs_arith i a b :
  is_arith i = true ->
  0 <= p < PROGRAM_SIZE -> array_get p prog = code i ->
  Z.of_nat (List.length l) + 2 <= STACK_CAPACITY ->
  full_step (cfg p (a :: b :: l) dead Cpu_Running n prog out rc)
    (cfg (wrap32 (p + 1)) (wrap32 (arith i a b) :: l) (a :: dead)
       Cpu_Running (n + 1) prog out rc).
Proof.
  intros A P E C.
  rewrite <- (advance_cfg {| opcode := code i; length := 1; immediate := 0 |}).
  apply full_step_one; auto; [now destruct i|].
  destruct i; try discriminate; exec_handler;
    now rewrite push_cfg by (cbn [List.length]; lia).
Qed.

Lemma fs_Sub a b :
  0 <= p < PROGRAM_SIZE -> array_get p prog = code Instr_Sub ->
  Z.of_nat (List.length l) + 2 <= STACK_CAPACITY ->
  full_step (cfg p (a :: b :: l) dead Cpu_Running n prog out rc)
    (cfg (wrap32 (p + 1)) (wrap32 (a - b) :: l) (a :: dead)
       Cpu_Running (n + 1) prog out rc).
Proof. now apply (fs_arith Instr_Sub). Qed.

Lemma fs_Mul a b :
  0 <= p < PROGRAM_SIZE -> array_get p prog = code Instr_Mul ->
  Z.of_nat (List.length l) + 2 <= STACK_CAPACITY ->
  full_step (cfg p (a :: b :: l) dead Cpu_Running n prog out rc)
    (cfg (wrap32 (p + 1)) (wrap32 (a * b) :: l) (a :: dead)
       Cpu_Running (n + 1) prog out rc).
Proof. now apply (fs_arith Instr_Mul). Qed.

Lemma fs_Mod a b :
  0 <= p < PROGRAM_SIZE -> array_get p prog = code Instr_Mod ->
  Z.of_nat (List.length l) + 2 <= STACK_CAPACITY -> b <> 0 ->
  full_step (cfg p (a :: b :: l) dead Cpu_Running n prog out rc)
    (cfg (wrap32 (p + 1)) (wrap32 (a mod b) :: l) (a :: dead)
       Cpu_Running (n + 1) prog out rc).
Proof.
  intros P E C N. step_one Instr_Mod. rewrite h_Mod by lia.
  apply Z.eqb_neq in N. now rewrite N.
Qed.

Lemma fs_Swap a b :
  0 <= p < PROGRAM_SIZE -> array_get p prog = code Instr_Swap ->
  word a -> word b -> Z.of_nat (List.length l) + 2 <= STACK_CAPACITY ->
  full_step (cfg p (a :: b :: l) dead Cpu_Running n prog out rc)
    (cfg (wrap32 (p + 1)) (b :: a :: l) dead Cpu_Running (n + 1) prog out rc).
Proof.
  intros P E Wa Wb C. step_one Instr_Swap. rewrite h_Swap by lia.
  now rewrite !word_wrap.
Qed.

Lemma fs_Dup a x :
  0 <= p < PROGRAM_SIZE -> array_get p prog = code Instr_Dup ->
  word a -> Z.of_nat (List.length l) + 2 <= STACK_CAPACITY ->
  full_step (cfg p (a :: l) (x :: dead) Cpu_Running n prog out rc)
    (cfg (wrap32 (p + 1)) (a :: a :: l) dead Cpu_Running (n + 1) prog out rc).
Proof.
  intros P E Wa C. step_one Instr_Dup. rewrite h_Dup by lia.
  now rewrite !word_wrap.
Qed.

Lemma fs_Over a b x :
  0 <= p < PROGRAM_SIZE -> array_get p prog = code Instr_Over ->
  word a -> word b -> Z.of_nat (List.length l) + 3 <= STACK_CAPACITY ->
  full_step (cfg p (a :: b :: l) (x :: dead) Cpu_Running n prog out rc)
    (cfg (wrap32 (p + 1)) (b :: a :: b :: l) dead Cpu_Running (n + 1)
       prog out rc).
Proof.
  intros P E Wa Wb C. step_one Instr_Over. rewrite h_Over by lia.
  now rewrite !word_wrap.
Qed.

Lemma fs_Inc a :
  0 <= p < PROGRAM_SIZE -> array_get p prog = code Instr_Inc ->
  Z.of_nat (List.length l) + 1 <= STACK_CAPACITY ->
  full_step (cfg p (a :: l) dead Cpu_Running n prog out rc)
    (cfg (wrap32 (p + 1)) (wrap32 (a + 1) :: l) dead Cpu_Running (n + 1)
       prog out rc).
Proof.
  intros P E C. step_one Instr_Inc. exec_handler.
  now rewrite push_cfg by (cbn [List.length]; lia).
Qed.

Lemma fs_Dec a :
  0 <= p < PROGRAM_SIZE -> array_get p prog = code Instr_Dec ->
  Z.of_nat (List.length l) + 1 <= STACK_CAPACITY ->
  full_step (cfg p (a :: l) dead Cpu_Running n prog out rc)
    (cfg (wrap32 (p + 1)) (wrap32 (a - 1) :: l) dead Cpu_Running (n + 1)
       prog out rc).
Proof. intros P E C. step_one Instr_Dec. now apply h_Dec. Qed.

Lemma fs_Print a :
  0 <= p < PROGRAM_SIZE -> array_get p prog = code Instr_Print ->
  full_step (cfg p (a :: l) dead Cpu_Running n prog out rc)
    (cfg (wrap32 (p + 1)) l (a :: dead) Cpu_Running (n + 1) prog
       (out ++ [Printed (sint32 a)]) rc).
Proof. intros P E. step_one Instr_Print. apply h_Print. Qed.

Lemma fs_Drop a :
  0 <= p < PROGRAM_SIZE -> array_get p prog = code Instr_Drop ->
  full_step (cfg p (a :: l) dead Cpu_Running n prog out rc)
    (cfg (wrap32 (p + 1)) l (a :: dead) Cpu_Running (n + 1) prog out rc).
Proof.
  intros P E. step_one Instr_Drop. unfold handler, bind. now rewrite pop_cfg.
Qed.

Lemma fs_Rand x :
  0 <= p < PROGRAM_SIZE -> array_get p prog = code Instr_Rand ->
  Z.of_nat (List.length l) < STACK_CAPACITY ->
  full_step (cfg p l (x :: dead) Cpu_Running n prog out rc)
    (cfg (wrap32 (p + 1)) (wrap32 (rand rc) :: l) dead Cpu_Running (n + 1)
       prog out (S rc)).
Proof.
  intros P E C. step_one Instr_Rand.
  unfold handler, bind at 1, call_rand, bind, gets, modify, ret.
  change (set_rand_calls
            (S (rand_calls (cfg p l (x :: dead) Cpu_Running n prog out rc)))
            (cfg p l (x :: dead) Cpu_Running n prog out rc))
    with (cfg p l (x :: dead) Cpu_Running n prog out (S rc)).
  cbn [cfg rand_calls].
  fold (cfg p l (x :: dead) Cpu_Running n prog out (S rc)).
  rewrite push_cfg by lia. now rewrite wrap32_idem.
Qed.

Lemma fs_Push x :
  0 <= p -> p + 1 < PROGRAM_SIZE -> p + 1 < modulus ->
  array_get p prog = code Instr_Push -> word (array_get (p + 1) prog) ->
  Z.of_nat (List.length l) < STACK_CAPACITY ->
  full_step (cfg p l (x :: dead) Cpu_Running n prog out rc)
    (cfg (wrap32 (p + 2)) (array_get (p + 1) prog :: l) dead Cpu_Running
       (n + 1) prog out rc).
Proof.
  intros P0 P1 P2 E W C. step_two Instr_Push p prog. rewrite h_Push by lia.
  cbn [immediate]. now rewrite wrap32_sint32, word_wrap.
Qed.

(** A conditional jump: the tested value is popped, and the immediate is
    added to the program counter before the advance when [taken]. *)
Lemma fs_branch i a (taken : bool) :
  0 <= p -> p + 1 < PROGRAM_SIZE -> p + 1 < modulus ->
  array_get p prog = code i ->
  (i = Instr_JE /\ taken = (a =? 0)) \/
  (i = Instr_JNE /\ taken = negb (a =? 0)) ->
  full_step (cfg p (a :: l) dead Cpu_Running n prog out rc)
    (cfg (if taken
          then wrap32 (p + sint32 (array_get (p + 1) prog) + 2)
          else wrap32 (p + 2))
       l (a :: dead) Cpu_Running (n + 1) prog out rc).
Proof.
  intros P0 P1 P2 E [[-> ->] | [-> ->]].
  - replace (if a =? 0
             then wrap32 (p + sint32 (array_get (p + 1) prog) + 2)
             else wrap32 (p + 2))
      with (wrap32 ((if a =? 0
                     then wrap32 (p + sint32 (array_get (p + 1) prog))
                     else p) + 2))
      by (destruct (a =? 0); [apply wrap32_add_l | reflexivity]).
    rewrite <- (advance_cfg {| opcode := code Instr_JE; length := 2;
                              immediate := sint32 (array_get (p + 1) prog) |}).
    apply full_step_two; auto. apply h_JE.
  - replace (if negb (a =? 0)
             then wrap32 (p + sint32 (array_get (p + 1) prog) + 2)
             else wrap32 (p + 2))
      with (wrap32 ((if a =? 0
                     then p
                     else wrap32 (p + sint32 (array_get (p + 1) prog))) + 2))
      by (destruct (a =? 0); [reflexivity | apply wrap32_add_l]).
    rewrite <- (advance_cfg {| opcode := code Instr_JNE; length := 2;
                              immediate := sint32 (array_get (p + 1) prog) |}).
    apply full_step_two; auto. apply h_JNE.
Qed.

Lemma fs_JE a (taken : bool) :
  0 <= p -> p + 1 < PROGRAM_SIZE -> p + 1 < modulus ->
  array_get p prog = code Instr_JE -> taken = (a =? 0) ->
  full_step (cfg p (a :: l) dead Cpu_Running n prog out rc)
    (cfg (if taken
          then wrap32 (p + sint32 (array_get (p + 1) prog) + 2)
          else wrap32 (p + 2))
       l (a :: dead) Cpu_Running (n + 1) prog out rc).
Proof. intros. apply (fs_branch Instr_JE); auto. Qed.

Lemma fs_JNE a (taken : bool) :
  0 <= p -> p + 1 < PROGRAM_SIZE -> p + 1 < modulus ->
  array_get p prog = code Instr_JNE -> taken = negb (a =? 0) ->
  full_step (cfg p (a :: l) dead Cpu_Running n prog out rc)
    (cfg (if taken
          then wrap32 (p + sint32 (array_get (p + 1) prog) + 2)
          else wrap32 (p + 2))
       l (a :: dead) Cpu_Running (n + 1) prog out rc).
Proof. intros. apply (fs_branch Instr_JNE); auto. Qed.

Lemma fs_Jump :
  0 <= p -> p + 1 < PROGRAM_SIZE -> p + 1 < modulus ->
  array_get p prog = code Instr_Jump ->
  full_step (cfg p l dead Cpu_Running n prog out rc)
    (cfg (wrap32 (p + sint32 (array_get (p + 1) prog) + 2)) l dead
       Cpu_Running (n + 1) prog out rc).
Proof.
  intros P0 P1 P2 E. rewrite <- wrap32_add_l.
  rewrite <- (advance_cfg {| opcode := code Instr_Jump; length := 2;
                            immediate := sint32 (array_get (p + 1) prog) |}
                (wrap32 (p + sint32 (array_get (p + 1) prog)))).
  now apply full_step_two.
Qed.

(** X1.  [Add], [Sub] and [Mul] pop [a] and then [b] and push
    [a + b], [a - b] (the value popped first minus the value popped second)
    or [a * b], reduced to 32 bits; the step is counted and the program
    counter moves to the next word. *)
Theorem arith_step i a b :
  is_arith i = true ->
  0 <= p < PROGRAM_SIZE -> array_get p prog = code i ->
  Z.of_nat (List.length l) + 2 <= STACK_CAPACITY ->
  full_step (cfg p (a :: b :: l) dead Cpu_Running n prog out rc)
    (cfg (wrap32 (p + 1)) (wrap32 (arith i a b) :: l) (a :: dead)
       Cpu_Running (n + 1) prog out rc).
Proof. exact (fs_arith i a b). Qed.

(** X2.  On 32-bit words, [Swap] exchanges the two values on top of the
    stack, [Dup] pushes a copy of the top value and [Over] pushes a copy
    of the value under the top, given the free slot the last two need. *)
Theorem shuffle_step a b x :
  0 <= p < PROGRAM_SIZE -> word a -> word b ->
  (array_get p prog = code Instr_Swap ->
   Z.of_nat (List.length l) + 2 <= STACK_CAPACITY ->
   full_step (cfg p (a :: b :: l) dead Cpu_Running n prog out rc)
     (cfg (wrap32 (p + 1)) (b :: a :: l) dead Cpu_Running (n + 1) prog
        out rc)) /\
  (array_get p prog = code Instr_Dup ->
   Z.of_nat (List.length l) + 2 <= STACK_CAPACITY ->
   full_step (cfg p (a :: l) (x :: dead) Cpu_Running n prog out rc)
     (cfg (wrap32 (p + 1)) (a :: a :: l) dead Cpu_Running (n + 1) prog
        out rc)) /\
  (array_get p prog = code Instr_Over ->
   Z.of_nat (List.length l) + 3 <= STACK_CAPACITY ->
   full_step (cfg p (a :: b :: l) (x :: dead) Cpu_Running n prog out rc)
     (cfg (wrap32 (p + 1)) (b :: a :: b :: l) dead Cpu_Running (n + 1)
        prog out rc)).
Proof.
  intros P Wa Wb. split; [|split]; intros E C.
  - now apply fs_Swap.
  - now apply fs_Dup.
  - now apply fs_Over.
Qed.

(** X3.  [Inc] and [Dec] replace the top value [a] by [a + 1] and
    [a - 1] reduced to 32 bits: [Dec] turns 0 into [0xffffffff] and [Inc]
    turns [0xffffffff] into 0. *)
Theorem inc_dec_step a :
  0 <= p < PROGRAM_SIZE ->
  Z.of_nat (List.length l) + 1 <= STACK_CAPACITY ->
  (array_get p prog = code Instr_Inc ->
   full_step (cfg p (a :: l) dead Cpu_Running n prog out rc)
     (cfg (wrap32 (p + 1)) (wrap32 (a + 1) :: l) dead Cpu_Running (n + 1)
        prog out rc)) /\
  (array_get p prog = code Instr_Dec ->
   full_step (cfg p (a :: l) dead Cpu_Running n prog out rc)
     (cfg (wrap32 (p + 1)) (wrap32 (a - 1) :: l) dead Cpu_Running (n + 1)
        prog out rc)) /\
  wrap32 (0 - 1) = modulus - 1 /\ wrap32 (modulus - 1 + 1) = 0.
Proof.
  intros P C. split; [|split; [|split; reflexivity]]; intros E.
  - now apply fs_Inc.
  - now apply fs_Dec.
Qed.

(** X4.  [Push] with both words inside the program and a free slot pushes
    the word that follows the opcode, unchanged by its passage through the
    signed immediate of [decode]; the program counter moves by two words
    and one step is counted. *)
Theorem push_step x :
  0 <= p -> p + 1 < PROGRAM_SIZE -> p + 1 < modulus ->
  array_get p prog = code Instr_Push -> word (array_get (p + 1) prog) ->
  Z.of_nat (List.length l) < STACK_CAPACITY ->
  full_step (cfg p l (x :: dead) Cpu_Running n prog out rc)
    (cfg (wrap32 (p + 2)) (array_get (p + 1) prog :: l) dead Cpu_Running
       (n + 1) prog out rc).
Proof. exact (fs_Push x). Qed.

(** X5.  [Print] pops the top value and writes it as a signed 32-bit
    number (so [0xffffffff] is written as -1); it writes nothing else. *)
Theorem print_step a :
  0 <= p < PROGRAM_SIZE -> array_get p prog = code Instr_Print ->
  full_step (cfg p (a :: l) dead Cpu_Running n prog out rc)
    (cfg (wrap32 (p + 1)) l (a :: dead) Cpu_Running (n + 1) prog
       (out ++ [Printed (sint32 a)]) rc) /\
  sint32 (modulus - 1) = -1.
Proof. intros P E. split; [now apply fs_Print | reflexivity]. Qed.

(** X6.  [JE] and [JNE] pop the tested value whether they jump or not.
    [JE] jumps when the value is zero and [JNE] when it is not; a jump
    that is not taken moves the program counter by the two words of the
    instruction, a jump that is taken by the immediate as well. *)
Theorem conditional_jump_step i a (taken : bool) :
  0 <= p -> p + 1 < PROGRAM_SIZE -> p + 1 < modulus ->
  array_get p prog = code i ->
  (i = Instr_JE /\ taken = (a =? 0)) \/
  (i = Instr_JNE /\ taken = negb (a =? 0)) ->
  full_step (cfg p (a :: l) dead Cpu_Running n prog out rc)
    (cfg (if taken
          then wrap32 (p + sint32 (array_get (p + 1) prog) + 2)
          else wrap32 (p + 2))
       l (a :: dead) Cpu_Running (n + 1) prog out rc).
Proof. exact (fs_branch i a taken). Qed.

(** X19.  [Nop] changes the program counter and the step count only.
    [Halt] sets the state to [Cpu_Halted], and [Break], the opcode 0 that
    fills the program array after the listed words, sets it to
    [Cpu_Break]; both are counted as a step, move the program counter past
    themselves and write nothing. *)
Theorem nop_halt_break_step :
  0 <= p < PROGRAM_SIZE ->
  (array_get p prog = code Instr_Nop ->
   full_step (cfg p l dead Cpu_Running n prog out rc)
     (cfg (wrap32 (p + 1)) l dead Cpu_Running (n + 1) prog out rc)) /\
  (array_get p prog = code Instr_Halt ->
   full_step (cfg p l dead Cpu_Running n prog out rc)
     (cfg (wrap32 (p + 1)) l dead Cpu_Halted (n + 1) prog out rc)) /\
  (array_get p prog = 0 ->
   full_step (cfg p l dead Cpu_Running n prog out rc)
     (cfg (wrap32 (p + 1)) l dead Cpu_Break (n + 1) prog out rc)).
Proof.
  intros P. split; [|split]; intros E.
  - now apply fs_Nop.
  - now apply fs_Halt.
  - now apply fs_Break.
Qed.

End OnCfg.

(** X7.  [Drop] pops the top value.  On the empty stack it writes the
    underflow diagnostic and sets the state to [Cpu_Break]; as it has no
    [BAIL_ON_ERROR()], that step is advanced and counted by both
    engines. *)
Theorem drop_step p l dead n prog out rc :
  0 <= p < PROGRAM_SIZE -> array_get p prog = code Instr_Drop ->
  full_step (cfg p l dead Cpu_Running n prog out rc)
    match l with
    | a :: l' =>
        cfg (wrap32 (p + 1)) l' (a :: dead) Cpu_Running (n + 1) prog out rc
    | [] =>
        cfg (wrap32 (p + 1)) [] dead Cpu_Break (n + 1) prog
          (out ++ [Diag "Stack underflow"]) rc
    end.
Proof.
  intros P E. destruct l as [|a l'].
  - change (cfg (wrap32 (p + 1)) [] dead Cpu_Break (n + 1) prog
              (out ++ [Diag "Stack underflow"]) rc)
      with (advance {| opcode := code Instr_Drop; length := 1;
                       immediate := 0 |}
              (faulted "Stack underflow"
                 (cfg p [] dead Cpu_Running n prog out rc))).
    now apply full_step_one.
  - now apply fs_Drop.
Qed.

(** X8.  [Rand] pushes the next value of the sequence of [rand], reduced
    to 32 bits, and takes nothing from the stack. *)
Theorem rand_step p l x dead n prog out rc :
  0 <= p < PROGRAM_SIZE -> array_get p prog = code Instr_Rand ->
  Z.of_nat (List.length l) < STACK_CAPACITY ->
  full_step (cfg p l (x :: dead) Cpu_Running n prog out rc)
    (cfg (wrap32 (p + 1)) (wrap32 (rand rc) :: l) dead Cpu_Running (n + 1)
       prog out (S rc)).
Proof. apply fs_Rand. Qed.

(** X9.  An instruction of two words whose second word lies outside the
    program is executed as a [Break] of one word by both engines: one
    diagnostic line, state [Cpu_Break], the step counted, the program
    counter moved by one word and the stack left alone. *)
Theorem truncated_step i p l dead n prog out rc :
  0 <= p < PROGRAM_SIZE -> PROGRAM_SIZE <= wrap32 (p + 1) ->
  array_get p prog = code i -> two_words i = true ->
  full_step (cfg p l dead Cpu_Running n prog out rc)
    (cfg (wrap32 (p + 1)) l dead Cpu_Break (n + 1) prog
       (out ++ [Diag "PC+1 out of bounds"]) rc).
Proof.
  intros P O E T.
  set (d := {| opcode := code Instr_Break; length := 1; immediate := 0 |}).
  change (cfg (wrap32 (p + 1)) l dead Cpu_Break (n + 1) prog
            (out ++ [Diag "PC+1 out of bounds"]) rc)
    with (advance d (set_state Cpu_Break
                       (set_stdout (out ++ [Diag "PC+1 out of bounds"])
                          (cfg p l dead Cpu_Running n prog out rc)))).
  apply (full_step_intro _ d
           (set_stdout (out ++ [Diag "PC+1 out of bounds"])
              (cfg p l dead Cpu_Running n prog out rc)) Instr_Break);
    cbn [cfg state pc pmem]; auto; try lia.
  rewrite E. unfold decode. rewrite enumerator_of_code.
  apply Z.ltb_ge in O.
  destruct i; try discriminate; unfold bind, gets; cbn [pc]; cbv beta;
    cbn [pc cfg]; rewrite O; reflexivity.
Qed.

(** X10.  On a full stack [Push], [Dup], [Over] and [Rand] write the
    overflow diagnostic once and set the state to [Cpu_Break]; the step is
    counted by both engines and the stack ends as it was (what [Dup] and
    [Over] popped is pushed back before the push that fails); [Rand] has
    used up one value of its sequence. *)
Theorem overflow_steps p a b l dead n prog out rc :
  0 <= p -> Z.of_nat (List.length l) + 2 = STACK_CAPACITY ->
  word a -> word b ->
  let full := cfg p (a :: b :: l) dead Cpu_Running n prog out rc in
  let stopped q k :=
    cfg q (a :: b :: l) dead Cpu_Break (n + 1) prog
      (out ++ [Diag "Stack overflow"]) k in
  (p + 1 < PROGRAM_SIZE -> p + 1 < modulus ->
   array_get p prog = code Instr_Push ->
   full_step full (stopped (wrap32 (p + 2)) rc)) /\
  (p < PROGRAM_SIZE -> array_get p prog = code Instr_Dup ->
   full_step full (stopped (wrap32 (p + 1)) rc)) /\
  (p < PROGRAM_SIZE -> array_get p prog = code Instr_Over ->
   full_step full (stopped (wrap32 (p + 1)) rc)) /\
  (p < PROGRAM_SIZE -> array_get p prog = code Instr_Rand ->
   full_step full (stopped (wrap32 (p + 1)) (S rc))).
Proof.
  intros P0 C Wa Wb full stopped.
  assert (F : forall k,
             push k (cfg p (a :: b :: l) dead Cpu_Running n prog out rc) =
             (Val tt, faulted "Stack overflow"
                        (cfg p (a :: b :: l) dead Cpu_Running n prog out rc))).
  { intros k. apply push_full. cbn [cfg sp List.length]. lia. }
  split; [|split; [|split]].
  - intros P1 P2 E.
    change (stopped (wrap32 (p + 2)) rc)
      with (advance {| opcode := code Instr_Push; length := 2;
                       immediate := sint32 (array_get (p + 1) prog) |}
              (faulted "Stack overflow" full)).
    apply full_step_two; auto. unfold handler. apply F.
  - intros P1 E.
    change (stopped (wrap32 (p + 1)) rc)
      with (advance {| opcode := code Instr_Dup; length := 1; immediate := 0 |}
              (faulted "Stack overflow" full)).
    apply full_step_one; auto; try lia. unfold full. exec_handler.
    rewrite (word_wrap _ Wa). apply F.
  - intros P1 E.
    change (stopped (wrap32 (p + 1)) rc)
      with (advance {| opcode := code Instr_Over; length := 1; immediate := 0 |}
              (faulted "Stack overflow" full)).
    apply full_step_one; auto; try lia. unfold full. exec_handler.
    rewrite (word_wrap _ Wa), (word_wrap _ Wb). apply F.
  - intros P1 E.
    change (stopped (wrap32 (p + 1)) (S rc))
      with (advance {| opcode := code Instr_Rand; length := 1; immediate := 0 |}
              (faulted "Stack overflow"
                 (cfg p (a :: b :: l) dead Cpu_Running n prog out (S rc)))).
    apply full_step_one; auto; try lia. unfold full.
    unfold handler, bind at 1, call_rand, bind, gets, modify, ret.
    apply push_full. cbn [cfg sp set_rand_calls List.length]. lia.
Qed.

(** X11.  A handler with two operands run on a stack of one value pops
    that value, writes the underflow diagnostic once for the missing
    operand, sets the state to [Cpu_Break] and ends at its [break],
    leaving the stack empty and pushing nothing. *)
Theorem one_operand_underflow i d p a dead n prog out rc :
  two_operands i = true ->
  handler i d (cfg p [a] dead Cpu_Running n prog out rc) =
  (Brk, cfg p [] (a :: dead) Cpu_Break n prog
          (out ++ [Diag "Stack underflow"]) rc).
Proof.
  intros T. destruct i; try discriminate; unfold handler, bind at 1;
    rewrite pop_cfg; unfold bind at 1;
    rewrite pop_empty by (cbn [cfg sp List.length]; lia); reflexivity.
Qed.

End InstructionSteps.

(* ------------------------------------------------------------------ *)
(** ** Whole runs under both engines *)

Section Runs.
Context `{platform}.

Lemma main_exit_code_switched limit prog c m :
  Switched.main limit prog = (Val c, m) -> c = exit_code limit m.
Proof.
  unfold Switched.main, bind, gets, assert_.
  destruct (Switched.run limit (init prog)) as [[[]| |e] m0]; try discriminate.
  destruct (final_assertion limit m0); [|discriminate].
  cbn. now inversion 1.
Qed.

(** X13.  With a step limit of at least one, the two engines return the
    same exit code and leave the same state, stack pointer, stack, output
    and count of calls to [rand]; the program counter and the step count
    are the same too unless the run ended in [Cpu_Break]. *)
Theorem strategies_agree limit prog :
  1 <= limit ->
  exists c ms mt,
    Switched.main limit prog = (Val c, ms) /\
    Threaded.main limit prog = (Val c, mt) /\
    state ms = state mt /\ sp ms = sp mt /\ stack ms = stack mt /\
    stdout ms = stdout mt /\ rand_calls ms = rand_calls mt /\
    (state ms <> Cpu_Break -> pc ms = pc mt /\ steps ms = steps mt).
Proof.
  intros L.
  destruct (engines_agree limit prog L)
    as (c & ms & mt & Es & Et & (A1 & A2 & A3 & _ & A5 & A6 & A7) & _).
  exists c, ms, mt. repeat split; auto; now apply A7.
Qed.

(** X15.  With a step limit of at least one, both programs return 1 when
    the run ends in [Cpu_Break] and 0 otherwise, that is when it ends in
    [Cpu_Halted] or is still [Cpu_Running] at the step limit. *)
Theorem exit_code_iff_fault limit prog :
  1 <= limit ->
  exists c ms mt,
    Switched.main limit prog = (Val c, ms) /\
    Threaded.main limit prog = (Val c, mt) /\
    state mt = state ms /\
    (state ms = Cpu_Break -> c = 1) /\
    (state ms <> Cpu_Break -> c = 0).
Proof.
  intros L.
  destruct (engines_agree limit prog L)
    as (c & ms & mt & Es & Et & (_ & A2 & _) & _ & F).
  exists c, ms, mt. pose proof (main_exit_code_switched _ _ _ _ Es) as Ec.
  split; [exact Es|]. split; [exact Et|]. split; [congruence|].
  unfold exit_code in Ec. split.
  - intros B. now rewrite B in Ec.
  - intros NB. destruct (state ms) eqn:S0.
    + destruct F as [F|F]; [congruence|].
      apply Z.eqb_eq in F. now rewrite F in Ec.
    + exact Ec.
    + congruence.
Qed.

Lemma threaded_bound f :
  forall limit m,
    state m = Cpu_Running -> limit - steps m <= Z.of_nat (S f) ->
    exists mt,
      Threaded.fetch_dispatch (Threaded.goto_ (S f) limit) m = (Brk, mt) /\
      steps mt <= Z.max (steps m + 1) limit.
Proof.
  induction f as [|f IH]; intros limit m R F.
  - destruct (Z_lt_le_dec (pc m) PROGRAM_SIZE) as [In|Out].
    + destruct (decode_catalog (array_get (pc m) (pmem m)) m)
        as (d & out & D & [i E] & _).
      destruct (handler_facts i d (set_stdout out m) R)
        as (r & m3 & Hh & Hr & Hn & _ & _).
      cbn [steps set_stdout] in Hn.
      rewrite (fetch_dispatch_in _ _ _ _ _ In D E).
      rewrite <- (statements_label_of i) in Hh.
      destruct Hr as [-> | [-> B]].
      * rewrite (goto_exit _ _ _ _ _ _ Hh) by (right; lia).
        eexists. split; [reflexivity|]. cbn. lia.
      * rewrite (goto_break _ _ _ _ _ _ Hh). eexists. split; [reflexivity|]. lia.
    + rewrite (fetch_dispatch_out _ _ Out).
      erewrite goto_exit; [| reflexivity | left; discriminate].
      eexists. split; [reflexivity|]. cbn. lia.
  - destruct (Z_lt_le_dec (pc m) PROGRAM_SIZE) as [In|Out].
    + destruct (decode_catalog (array_get (pc m) (pmem m)) m)
        as (d & out & D & [i E] & _).
      destruct (handler_facts i d (set_stdout out m) R)
        as (r & m3 & Hh & Hr & Hn & _ & _).
      cbn [steps set_stdout] in Hn.
      rewrite (fetch_dispatch_in _ _ _ _ _ In D E).
      rewrite <- (statements_label_of i) in Hh.
      destruct Hr as [-> | [-> B]].
      * destruct (state m3) eqn:R3;
          [destruct (Z_lt_le_dec (steps m3 + 1) limit) as [Lt|Ge] | |].
        -- rewrite (goto_next _ _ _ _ _ _ Hh R3 Lt).
           destruct (IH limit (advance d m3)) as (mt & Et & Bt);
             [exact R3 | cbn; lia |].
           exists mt. split; [exact Et|]. cbn in Bt. lia.
        -- rewrite (goto_exit _ _ _ _ _ _ Hh) by (right; lia).
           eexists. split; [reflexivity|]. cbn. lia.
        -- rewrite (goto_exit _ _ _ _ _ _ Hh) by (left; congruence).
           eexists. split; [reflexivity|]. cbn. lia.
        -- rewrite (goto_exit _ _ _ _ _ _ Hh) by (left; congruence).
           eexists. split; [reflexivity|]. cbn. lia.
      * rewrite (goto_break _ _ _ _ _ _ Hh). eexists. split; [reflexivity|]. lia.
    + rewrite (fetch_dispatch_out _ _ Out).
      erewrite goto_exit; [| reflexivity | left; discriminate].
      eexists. split; [reflexivity|]. cbn. lia.
Qed.

(** X14.  The loop of switched.c never counts more steps than the step
    limit, and a cpu it leaves running has counted exactly that many; the
    loop of threaded.c, which tests the limit after a step only, never
    counts more than the limit or one step, whichever is larger. *)
Theorem step_budget limit prog :
  0 <= limit ->
  exists c ms mt,
    Switched.main limit prog = (Val c, ms) /\
    steps ms <= limit /\ (state ms = Cpu_Running -> steps ms = limit) /\
    Threaded.run limit (init prog) = (Val tt, mt) /\
    steps mt <= Z.max 1 limit.
Proof.
  intros L.
  destruct (switched_main_returns limit prog L) as (c & ms & Es & B & F).
  destruct (threaded_bound (Z.to_nat limit) limit (init prog))
    as (mt & Et & Bt); [reflexivity | cbn [init steps]; lia |].
  exists c, ms, mt. repeat split; auto.
  - intros R. destruct F as [F|F]; [now destruct F | exact F].
  - unfold Threaded.run, enclose. now rewrite Et.
Qed.

Lemma values_only_app out v :
  values_only out -> values_only (out ++ [Printed v]).
Proof.
  intros V e I. apply in_app_or in I. destruct I as [I|[<-|[]]]; eauto.
Qed.

Lemma handler_output i d m :
  state m = Cpu_Running ->
  exists r m3,
    handler i d m = (r, m3) /\ (forall e, r <> Stop e) /\
    (state m3 = Cpu_Break \/ stdout m3 = stdout m \/
     exists v, stdout m3 = stdout m ++ [Printed v]).
Proof.
  destruct m as [pc0 sp0 st0 n0 stk0 pm0 out0 rc0]. fields. intros ->.
  destruct i; unfold_exec; split_ifs;
    (do 2 eexists; split; [reflexivity|]; fields;
     split; [discriminate|]; eauto).
Qed.

Lemma decode_output raw m :
  exists d m2,
    decode raw m = (Val d, m2) /\
    (exists i, enumerator (opcode d) = Some i) /\
    (m2 = m \/
     opcode d = code Instr_Break /\ exists o, m2 = set_stdout o m).
Proof.
  destruct m as [pc0 sp0 st0 n0 stk0 pm0 out0 rc0].
  unfold decode.
  destruct (enumerator raw) as [i|] eqn:E; [destruct i|];
    unfold_exec; split_ifs;
    (do 2 eexists; split; [reflexivity|]; fields; split;
     [eexists; first [eassumption | reflexivity]
     | first [left; reflexivity | right; split; [reflexivity|]; eexists;
              reflexivity]]).
Qed.

Lemma loop_body_output m :
  state m = Cpu_Running ->
  exists r m',
    Switched.loop_body m = (r, m') /\
    (state m' = Cpu_Break \/ stdout m' = stdout m \/
     exists v, stdout m' = stdout m ++ [Printed v]).
Proof.
  intros R. destruct (Z_lt_le_dec (pc m) PROGRAM_SIZE) as [In|Out].
  - destruct (decode_output (array_get (pc m) (pmem m)) m)
      as (d & m2 & D & [i E] & C).
    assert (R2 : state m2 = Cpu_Running)
      by (destruct C as [-> | (_ & o & ->)]; exact R).
    destruct (handler_output i d m2 R2) as (r & m3 & Hh & NS & O).
    rewrite (loop_body_in _ _ _ _ _ _ R In D E Hh NS).
    do 2 eexists. split; [reflexivity|].
    cbn [advance state stdout set_steps set_pc].
    destruct C as [-> | (B & o & ->)]; [exact O|].
    left. apply enumerator_code in E. rewrite B in E.
    assert (i = Instr_Break) by (destruct i; discriminate || reflexivity).
    subst i. unfold handler, modify in Hh. now inversion Hh.
  - rewrite (loop_body_out _ Out). do 2 eexists. split; [reflexivity|].
    now left.
Qed.

Lemma while_values fuel limit :
  forall m,
    (state m <> Cpu_Break -> values_only (stdout m)) ->
    state (snd (Switched.while_ fuel limit m)) <> Cpu_Break ->
    values_only (stdout (snd (Switched.while_ fuel limit m))).
Proof.
  induction fuel as [|f IH]; intros m J; cbn [Switched.while_];
    destruct (is_running (state m) && (steps m <? limit)) eqn:C;
    cbn [snd]; auto.
  apply andb_true_iff in C. destruct C as [R _].
  assert (R' : state m = Cpu_Running) by (now destruct (state m)).
  destruct (loop_body_output m R') as (r & m' & E & O).
  unfold bind. rewrite E.
  assert (J' : state m' <> Cpu_Break -> values_only (stdout m')).
  { intros NB. destruct O as [O | [O | [v O]]]; [contradiction | |];
      rewrite O; [|apply values_only_app]; apply J; congruence. }
  destruct r as [[]| |e]; cbn [snd]; auto.
Qed.

(** X16.  With a step limit of at least one, a run that returns 0 has
    written no diagnostic line under either engine: its output consists of
    values of [Print]. *)
Theorem clean_exit_no_diagnostics limit prog :
  1 <= limit ->
  exists c ms mt,
    Switched.main limit prog = (Val c, ms) /\
    Threaded.main limit prog = (Val c, mt) /\
    (c = 0 -> values_only (stdout ms) /\ values_only (stdout mt)).
Proof.
  intros L.
  destruct (engines_agree limit prog L)
    as (c & ms & mt & Es & Et & (_ & _ & _ & _ & O & _) & _).
  exists c, ms, mt.
  pose proof (main_exit_code_switched _ _ _ _ Es) as Ec.
  assert (B : state ms = Cpu_Break -> c = 1)
    by (intros S0; unfold exit_code in Ec; now rewrite S0 in Ec).
  split; [exact Es|]. split; [exact Et|]. intros Z0.
  assert (NB : state ms <> Cpu_Break)
    by (intros S0; specialize (B S0); lia).
  assert (Ems : ms = snd (Switched.while_ (Z.to_nat limit) limit (init prog))).
  { revert Es. unfold Switched.main, Switched.run, bind, enclose, gets, assert_.
    destruct (Switched.while_ (Z.to_nat limit) limit (init prog))
      as [[[]| |e] m0]; try discriminate;
      (destruct (final_assertion limit m0); [|discriminate]);
      cbn; now inversion 1. }
  assert (V : values_only (stdout ms)).
  { rewrite Ems in *. apply while_values; auto. intros _ e []. }
  split; [exact V | now rewrite <- O].
Qed.

(** X12.  A program whose first word is [Halt] makes one step under
    both engines and leaves the same cpu: halted, the program counter at
    1, the stack empty, nothing written, exit code 0. *)
Theorem halt_first limit prog :
  0 < PROGRAM_SIZE -> 1 <= limit -> array_get 0 prog = code Instr_Halt ->
  exists m,
    Switched.main limit prog = (Val 0, m) /\
    Threaded.main limit prog = (Val 0, m) /\
    state m = Cpu_Halted /\ steps m = 1 /\ pc m = 1 /\ sp m = -1 /\
    stdout m = [].
Proof.
  intros PS L E.
  set (d := {| opcode := code Instr_Halt; length := 1; immediate := 0 |}).
  set (m1 := advance d (set_state Cpu_Halted (init prog))).
  assert (D : decode (array_get 0 prog) (init prog) = (Val d, init prog))
    by (rewrite E; reflexivity).
  assert (Rs : Switched.run limit (init prog) = (Val tt, m1)).
  { apply (first_step_switched limit prog d Instr_Halt);
      [exact PS | exact L | exact D | reflexivity | left; reflexivity
      | discriminate]. }
  assert (Rt : Threaded.run limit (init prog) = (Val tt, m1)).
  { unfold Threaded.run, enclose.
    rewrite (fetch_dispatch_in _ (init prog) d (init prog) Instr_Halt);
      [| exact PS | exact D | reflexivity].
    erewrite goto_exit; [reflexivity | reflexivity | left; discriminate]. }
  exists m1.
  rewrite (main_of_run_switched _ _ _ Rs), (main_of_run_threaded _ _ _ Rt)
    by reflexivity.
  now repeat split.
Qed.


End Runs.

(* ------------------------------------------------------------------ *)
(** ** Faults *)

Section Faults.
Context `{platform}.

(** *** The cpus of a run *)

Lemma full_step_running m m' : full_step m m' -> state m = Cpu_Running.
Proof.
  intros [B _]. destruct (Z_lt_le_dec (pc m) PROGRAM_SIZE) as [In|Out].
  - revert B. unfold Switched.loop_body, bind at 1.
    rewrite (fetch_checked_in _ In).
    unfold bind at 1, BAIL_ON_ERROR, bind at 1, gets.
    destruct (state m); [reflexivity | discriminate | discriminate].
  - rewrite (loop_body_out _ Out) in B. discriminate.
Qed.

Lemma full_step_steps m m' : full_step m m' -> steps m' = steps m + 1.
Proof.
  intros F. pose proof (full_step_running _ _ F) as R. destruct F as [B _].
  destruct (Z_lt_le_dec (pc m) PROGRAM_SIZE) as [In|Out].
  - destruct (decode_catalog (array_get (pc m) (pmem m)) m)
      as (d & out & D & [i E] & _).
    destruct (handler_facts i d (set_stdout out m) R)
      as (r & m3 & Hh & Hr & Hn & _ & _).
    rewrite (loop_body_in m d _ i r m3 R In D E Hh) in B.
    + inversion B. cbn. rewrite Hn. reflexivity.
    + destruct Hr as [-> | [-> _]]; discriminate.
  - rewrite (loop_body_out _ Out) in B. discriminate.
Qed.

Lemma lockstep_steps prog m : lockstep prog m -> 0 <= steps m.
Proof.
  induction 1 as [|m m' _ IH F]; [cbn; lia|].
  rewrite (full_step_steps _ _ F). lia.
Qed.

Lemma lockstep_values prog m :
  lockstep prog m -> state m <> Cpu_Break -> values_only (stdout m).
Proof.
  induction 1 as [|m m' L IH F]; intros NB.
  - intros e [].
  - pose proof (full_step_running _ _ F) as R. destruct F as [B _].
    destruct (loop_body_output m R) as (r & m1 & E & O).
    rewrite B in E. inversion E; subst r m1.
    destruct O as [O | [O | [v O]]]; [contradiction | |]; rewrite O;
      [|apply values_only_app]; apply IH; congruence.
Qed.

Lemma lockstep_switched prog m :
  lockstep prog m ->
  forall fuel limit,
    steps m <= limit ->
    Switched.while_ (Z.to_nat (steps m) + fuel) limit (init prog) =
    Switched.while_ fuel limit m.
Proof.
  induction 1 as [|m m' L IH F]; intros fuel limit B; [reflexivity|].
  pose proof (full_step_running _ _ F) as R.
  pose proof (full_step_steps _ _ F) as N.
  pose proof (lockstep_steps _ _ L) as P.
  replace (Z.to_nat (steps m') + fuel)%nat
    with (Z.to_nat (steps m) + S fuel)%nat by lia.
  rewrite IH by lia. rewrite while_step by (auto; lia).
  destruct F as [E _]. unfold bind. now rewrite E.
Qed.

Lemma lockstep_threaded prog m :
  lockstep prog m ->
  forall f limit,
    state m = Cpu_Running -> steps m < limit ->
    Threaded.fetch_dispatch
      (Threaded.goto_ (Z.to_nat (steps m) + S f) limit) (init prog) =
    Threaded.fetch_dispatch (Threaded.goto_ (S f) limit) m.
Proof.
  induction 1 as [|m m' L IH F]; intros f limit R' B; [reflexivity|].
  pose proof (full_step_running _ _ F) as R.
  pose proof (full_step_steps _ _ F) as N.
  pose proof (lockstep_steps _ _ L) as P.
  replace (Z.to_nat (steps m') + S f)%nat
    with (Z.to_nat (steps m) + S (S f))%nat by lia.
  rewrite IH by (auto; lia). destruct F as [_ E]. rewrite E, R'.
  replace (steps m' <? limit) with true by (symmetry; apply Z.ltb_lt; lia).
  reflexivity.
Qed.

(** *** The end of a run at a fault *)

Lemma faults_with_ends m ms mt lines :
  state m = Cpu_Running ->
  (forall fuel limit, steps m < limit ->
     enclose (Switched.while_ (S fuel) limit) m = (Val tt, ms)) ->
  (forall fuel limit, steps m < limit ->
     enclose (Threaded.fetch_dispatch (Threaded.goto_ (S fuel) limit)) m
     = (Val tt, mt)) ->
  state ms = Cpu_Break -> state mt = Cpu_Break ->
  stdout ms = stdout m ++ lines ->
  stdout mt = stdout m ++ lines ->
  faults_with m lines.
Proof.
  intros R Es Et Ss St Os Ot limit B. exists ms, mt.
  split; [auto|]. split; [auto|]. do 4 (split; [assumption|]).
  intros prog L. pose proof (lockstep_steps _ _ L) as P.
  split; [|split].
  - assert (Rs : Switched.run limit (init prog) = (Val tt, ms)).
    { unfold Switched.run.
      replace (Z.to_nat limit)
        with (Z.to_nat (steps m) + S (Z.to_nat limit - Z.to_nat (steps m) - 1))%nat
        by lia.
      unfold enclose. rewrite (lockstep_switched _ _ L) by lia.
      apply (Es _ limit B). }
    rewrite (main_of_run_switched _ _ _ Rs)
      by (apply final_assertion_true; left; congruence).
    unfold exit_code. now rewrite Ss.
  - assert (Rt : Threaded.run limit (init prog) = (Val tt, mt)).
    { unfold Threaded.run.
      replace (S (Z.to_nat limit))
        with (Z.to_nat (steps m) + S (Z.to_nat limit - Z.to_nat (steps m)))%nat
        by lia.
      unfold enclose. rewrite (lockstep_threaded _ _ L) by (auto; lia).
      apply (Et _ limit B). }
    rewrite (main_of_run_threaded _ _ _ Rt)
      by (apply final_assertion_true; left; congruence).
    unfold exit_code. now rewrite St.
  - apply (lockstep_values _ _ L). congruence.
Qed.

(** A fault found by [decode] or by the handler: the loop of switched.c
    advances and ends at its next test; threaded.c ends at the [break] of
    the handler or in [ADVANCE_PC()]. *)
Lemma faults_with_handler m d m2 i r m3 lines :
  state m = Cpu_Running -> pc m < PROGRAM_SIZE ->
  decode (array_get (pc m) (pmem m)) m = (Val d, m2) ->
  enumerator (opcode d) = Some i ->
  handler i d m2 = (r, m3) -> r = Val tt \/ r = Brk ->
  state m3 = Cpu_Break -> stdout m3 = stdout m ++ lines ->
  faults_with m lines.
Proof.
  intros R In D E Hh Hr S3 O3.
  apply (faults_with_ends m (advance d m3)
           (match r with Brk => m3 | _ => advance d m3 end)); auto.
  - intros fuel limit B. unfold enclose.
    rewrite while_step by auto. unfold bind.
    rewrite (loop_body_in m d m2 i r m3 R In D E Hh)
      by (destruct Hr as [-> | ->]; discriminate).
    rewrite while_done by (left; cbn; congruence). reflexivity.
  - intros fuel limit B. unfold enclose.
    rewrite (fetch_dispatch_in _ _ _ _ _ In D E).
    rewrite <- (statements_label_of i) in Hh.
    destruct Hr as [-> | ->].
    + rewrite (goto_exit _ _ _ _ _ _ Hh) by (left; congruence). reflexivity.
    + rewrite (goto_break _ _ _ _ _ _ Hh). reflexivity.
  - destruct Hr as [-> | ->]; auto.
  - destruct Hr as [-> | ->]; auto.
Qed.

Lemma decode_at m i :
  at_instr m i ->
  exists d,
    decode (array_get (pc m) (pmem m)) m = (Val d, m) /\
    enumerator (opcode d) = Some i.
Proof.
  intros (_ & E & T). rewrite E. unfold decode.
  rewrite enumerator_of_code.
  destruct i; try (eexists; split; reflexivity);
    specialize (T eq_refl); apply Z.ltb_lt in T;
    unfold bind, gets; rewrite T; eexists; split; reflexivity.
Qed.

(** *** The handlers at a fault *)

Ltac fault_cases :=
  unfold_exec; split_ifs; try (exfalso; lia);
  do 2 eexists; split; [reflexivity|]; fields; auto.

Lemma handler_overflow i d m :
  state m = Cpu_Running -> sp m = STACK_CAPACITY - 1 ->
  i = Instr_Push \/ i = Instr_Rand \/ (i = Instr_Dup /\ 0 <= sp m) \/
  (i = Instr_Over /\ 1 <= sp m) ->
  exists r m3,
    handler i d m = (r, m3) /\ (r = Val tt \/ r = Brk) /\
    state m3 = Cpu_Break /\
    stdout m3 = stdout m ++ [Diag "Stack overflow"].
Proof.
  destruct m as [pc0 sp0 st0 n0 stk0 pm0 out0 rc0]. fields.
  intros -> S0 [-> | [-> | [[-> P] | [-> P]]]]; fault_cases.
Qed.

Lemma handler_underflow i d m :
  state m = Cpu_Running ->
  (one_operand i = true /\ sp m = -1) \/
  (two_operands i = true /\ sp m = 0) ->
  exists r m3,
    handler i d m = (r, m3) /\ (r = Val tt \/ r = Brk) /\
    state m3 = Cpu_Break /\
    stdout m3 = stdout m ++ [Diag "Stack underflow"].
Proof.
  destruct m as [pc0 sp0 st0 n0 stk0 pm0 out0 rc0]. fields.
  intros -> [[T ->] | [T ->]]; destruct i; try discriminate; fault_cases.
Qed.

Lemma handler_underflow_twice i d m :
  state m = Cpu_Running -> two_operands i = true -> sp m = -1 ->
  exists r m3,
    handler i d m = (r, m3) /\ (r = Val tt \/ r = Brk) /\
    state m3 = Cpu_Break /\
    stdout m3 =
    stdout m ++ [Diag "Stack underflow"; Diag "Stack underflow"].
Proof.
  destruct m as [pc0 sp0 st0 n0 stk0 pm0 out0 rc0]. fields.
  intros -> T ->; destruct i; try discriminate; fault_cases;
    repeat split; auto; now rewrite <- app_assoc.
Qed.

Lemma handler_divide_by_zero d m :
  state m = Cpu_Running -> 1 <= sp m ->
  array_get (sp m - 1) (stack m) = 0 ->
  exists r m3,
    handler Instr_Mod d m = (r, m3) /\ (r = Val tt \/ r = Brk) /\
    state m3 = Cpu_Break /\ stdout m3 = stdout m.
Proof.
  destruct m as [pc0 sp0 st0 n0 stk0 pm0 out0 rc0]. fields.
  intros -> P Z0. fault_cases.
Qed.

(** C4, as the code has it.  Under both engines a fault ends the run in
    the step that finds it, with the cpu in state [Cpu_Break] and exit
    code 1.  A program counter outside the program, an instruction whose
    immediate lies outside the program, a push on a full stack and a
    handler that finds one operand missing write exactly one diagnostic
    line; [Mod] with a zero divisor and an opcode outside the catalog
    write none; a handler with two operands run on an empty stack writes
    the underflow line twice, once per [pop].  Nothing else is written by
    that step, and what the run wrote before it are values of [Print]. *)
Theorem fault_diagnostics m :
  state m = Cpu_Running ->
  (PROGRAM_SIZE <= pc m -> faults_with m [Diag "PC out of bounds"]) /\
  (forall i,
     pc m < PROGRAM_SIZE -> array_get (pc m) (pmem m) = code i ->
     two_words i = true -> PROGRAM_SIZE <= wrap32 (pc m + 1) ->
     faults_with m [Diag "PC+1 out of bounds"]) /\
  (forall i,
     at_instr m i -> sp m = STACK_CAPACITY - 1 ->
     i = Instr_Push \/ i = Instr_Rand \/ (i = Instr_Dup /\ 0 <= sp m) \/
     (i = Instr_Over /\ 1 <= sp m) ->
     faults_with m [Diag "Stack overflow"]) /\
  (forall i,
     at_instr m i ->
     (one_operand i = true /\ sp m = -1) \/
     (two_operands i = true /\ sp m = 0) ->
     faults_with m [Diag "Stack underflow"]) /\
  (forall i,
     at_instr m i -> two_operands i = true -> sp m = -1 ->
     faults_with m [Diag "Stack underflow"; Diag "Stack underflow"]) /\
  (at_instr m Instr_Mod -> 1 <= sp m ->
   array_get (sp m - 1) (stack m) = 0 ->
   faults_with m []) /\
  (pc m < PROGRAM_SIZE -> ~ (0 <= array_get (pc m) (pmem m) <= 18) ->
   faults_with m []).
Proof.
  intros R. split; [|split; [|split; [|split; [|split; [|split]]]]].
  - intros Out.
    set (d := {| opcode := code Instr_Break; length := 1; immediate := 0 |}).
    apply (faults_with_ends m (faulted "PC out of bounds" m)
             (advance d (faulted "PC out of bounds" m))); auto.
    + intros fuel limit B. unfold enclose.
      rewrite while_step by auto. unfold bind.
      now rewrite (loop_body_out _ Out).
    + intros fuel limit B. unfold enclose.
      rewrite (fetch_dispatch_out _ _ Out).
      erewrite goto_exit; [reflexivity | reflexivity | left; discriminate].
  - intros i In E T O. apply Z.ltb_ge in O.
    apply (faults_with_handler m
             {| opcode := code Instr_Break; length := 1; immediate := 0 |}
             (set_stdout (stdout m ++ [Diag "PC+1 out of bounds"]) m)
             Instr_Break (Val tt)
             (set_state Cpu_Break
                (set_stdout (stdout m ++ [Diag "PC+1 out of bounds"]) m)));
      auto.
    rewrite E. unfold decode. rewrite enumerator_of_code.
    destruct i; try discriminate; unfold bind, gets; rewrite O;
      reflexivity.
  - intros i A S0 C. pose proof A as (In & _).
    destruct (decode_at _ _ A) as (d & D & E).
    destruct (handler_overflow i d m R S0 C) as (r & m3 & Hh & Hr & S3 & O3).
    now apply (faults_with_handler m d m i r m3).
  - intros i A C. pose proof A as (In & _).
    destruct (decode_at _ _ A) as (d & D & E).
    destruct (handler_underflow i d m R C) as (r & m3 & Hh & Hr & S3 & O3).
    now apply (faults_with_handler m d m i r m3).
  - intros i A T S0. pose proof A as (In & _).
    destruct (decode_at _ _ A) as (d & D & E).
    destruct (handler_underflow_twice i d m R T S0)
      as (r & m3 & Hh & Hr & S3 & O3).
    now apply (faults_with_handler m d m i r m3).
  - intros A P Z0. pose proof A as (In & _).
    destruct (decode_at _ _ A) as (d & D & E).
    destruct (handler_divide_by_zero d m R P Z0)
      as (r & m3 & Hh & Hr & S3 & O3).
    apply (faults_with_handler m d m Instr_Mod r m3); auto.
    now rewrite app_nil_r.
  - intros In U.
    apply (faults_with_handler m
             {| opcode := code Instr_Break; length := 1; immediate := 0 |}
             m Instr_Break (Val tt) (set_state Cpu_Break m)); auto.
    + unfold decode. now rewrite (enumerator_outside _ U).
    + cbn. now rewrite app_nil_r.
Qed.

End Faults.

Lemma fault_diagnostics_witness :
  state (@init small_platform (words [code Instr_Print])) = Cpu_Running /\
  @at_instr small_platform (@init small_platform (words [code Instr_Print]))
    Instr_Print /\
  ((one_operand Instr_Print = true /\
    sp (@init small_platform (words [code Instr_Print])) = -1) \/
   (two_operands Instr_Print = true /\
    sp (@init small_platform (words [code Instr_Print])) = 0)) /\
  exists ms mt,
    @Switched.main small_platform 1000 (words [code Instr_Print])
    = (Val 1, ms) /\
    @Threaded.main small_platform 1000 (words [code Instr_Print])
    = (Val 1, mt) /\
    state ms = Cpu_Break /\ state mt = Cpu_Break /\
    stdout ms = [Diag "Stack underflow"] /\
    stdout mt = [Diag "Stack underflow"].
Proof.
  assert (H1 : state (@init small_platform (words [code Instr_Print]))
               = Cpu_Running) by reflexivity.
  assert (H2 : @at_instr small_platform
                 (@init small_platform (words [code Instr_Print]))
                 Instr_Print)
    by (split; [reflexivity | split; [reflexivity | discriminate]]).
  assert (H3 : (one_operand Instr_Print = true /\
                sp (@init small_platform (words [code Instr_Print])) = -1) \/
               (two_operands Instr_Print = true /\
                sp (@init small_platform (words [code Instr_Print])) = 0))
    by (left; split; reflexivity).
  assert (H4 : steps (@init small_platform (words [code Instr_Print])) < 1000)
    by reflexivity.
  split; [exact H1|]. split; [exact H2|]. split; [exact H3|].
  destruct (proj1 (proj2 (proj2 (proj2
              (@fault_diagnostics small_platform
                 (@init small_platform (words [code Instr_Print])) H1))))
              Instr_Print H2 H3 1000 H4)
    as (ms & mt & _ & _ & Ss & St & Os & Ot & Mn).
  destruct (Mn _ (@lockstep_init small_platform (words [code Instr_Print])))
    as (Es & Et & _).
  exists ms, mt. repeat split; assumption.
Defined.

(* ------------------------------------------------------------------ *)
(** ** Runs of several steps *)

Section SeveralSteps.
Context `{platform}.

Lemma runs_to_refl m m' : m = m' -> runs_to 0 m m'.
Proof. intros <-. split; [cbn; lia | reflexivity]. Qed.

Lemma runs_to_S k p l dead n prog out rc m' m'' :
  full_step (cfg p l dead Cpu_Running n prog out rc) m' ->
  steps m' = n + 1 ->
  runs_to k m' m'' ->
  runs_to (S k) (cfg p l dead Cpu_Running n prog out rc) m''.
Proof.
  intros [B _] N [N' W]. split.
  - rewrite N', N. cbn [cfg steps]. lia.
  - intros fuel limit L. cbn [Nat.add].
    rewrite while_step by (cbn [cfg state steps]; auto; lia).
    unfold bind. rewrite B. now apply W.
Qed.

Lemma runs_to_trans k1 k2 k a b c :
  runs_to k1 a b -> runs_to k2 b c -> k = (k1 + k2)%nat -> runs_to k a c.
Proof.
  intros [N1 W1] [N2 W2] ->. split; [lia|].
  intros fuel limit L. rewrite <- Nat.add_assoc.
  rewrite W1 by lia. now apply W2.
Qed.

(** A run that reaches a cpu that is not running is the whole run of
    [main], for every step limit it fits in. *)
Lemma runs_to_main k prog m limit :
  runs_to k (init prog) m -> state m <> Cpu_Running ->
  Z.of_nat k <= limit ->
  Switched.main limit prog = (Val (exit_code limit m), m).
Proof.
  intros [N W] Hs L. cbn [init steps] in N.
  apply main_of_run_switched; [|apply final_assertion_true; now left].
  unfold Switched.run, enclose.
  replace (Z.to_nat limit) with (k + (Z.to_nat limit - k))%nat by lia.
  rewrite W by lia. now rewrite while_done by (now left).
Qed.

End SeveralSteps.

(* ------------------------------------------------------------------ *)
(** ** The factorial program *)

Section FactorialProgram.
Context `{platform}.
Hypothesis PS : 16 <= PROGRAM_SIZE.
Hypothesis CAP : 3 <= STACK_CAPACITY.

Ltac norm_pc :=
  match goal with
  | |- runs_to _ (cfg ?p ?l ?d ?st ?n ?prog ?o ?r) _ =>
      let p' := eval vm_compute in p in
      change (cfg p l d st n prog o r) with (cfg p' l d st n prog o r)
  end.

Ltac side :=
  first [ reflexivity
        | assumption
        | apply wrap32_range
        | cbn [List.length]; unfold word, modulus in *; lia ].

Ltac step lem :=
  eapply runs_to_S; [ eapply lem; side | reflexivity | norm_pc ].

Lemma wrap32_mul_l a b : wrap32 (wrap32 a * b) = wrap32 (a * b).
Proof. unfold wrap32, modulus. apply Zmult_mod_idemp_l. Qed.

Lemma word_1 : word 1.
Proof. unfold word, modulus. lia. Qed.

Lemma fact_prologue n x0 x1 x2 dead :
  word n ->
  runs_to 3
    (cfg 0 [] (x0 :: x1 :: x2 :: dead) Cpu_Running 0 (Factorial n) [] O)
    (cfg 5 [n; 1] (x2 :: dead) Cpu_Running 3 (Factorial n) [] O).
Proof.
  intros W.
  step fs_Push. step fs_Push. step fs_Swap.
  apply runs_to_refl. f_equal.
  change (array_get (0 + 1) (Factorial n)) with (wrap32 n).
  now rewrite (wrap32_small n W).
Qed.

Lemma fact_iteration n k a x dead s out rc :
  word k -> word a -> k <> 0 ->
  runs_to 7
    (cfg 5 [k; a] (x :: dead) Cpu_Running s (Factorial n) out rc)
    (cfg (if k - 1 =? 0 then 13 else 5) [k - 1; wrap32 (k * a)]
       (k - 1 :: dead) Cpu_Running (s + 7) (Factorial n) out rc).
Proof.
  intros Wk Wa N.
  assert (Wk' : wrap32 (k - 1) = k - 1)
    by (apply wrap32_small; unfold word, modulus in *; lia).
  step fs_Swap. step fs_Over.
  step fs_Mul.
  step fs_Swap. step fs_Dec. rewrite Wk'.
  step fs_Dup.
  eapply runs_to_S;
    [ eapply fs_JNE with (taken := negb (k - 1 =? 0)); side
    | reflexivity | ].
  apply runs_to_refl. f_equal; [now destruct (k - 1 =? 0) | lia].
Qed.

Lemma fact_loop n :
  forall (k : nat) a x dead s out rc,
    (1 <= k)%nat -> word (Z.of_nat k) -> word a ->
    runs_to (7 * k)
      (cfg 5 [Z.of_nat k; a] (x :: dead) Cpu_Running s (Factorial n) out rc)
      (cfg 13 [0; wrap32 (a * fact k)] (0 :: dead) Cpu_Running
         (s + 7 * Z.of_nat k) (Factorial n) out rc).
Proof.
  induction k as [|k IH]; intros a x dead s out rc K Wk Wa; [lia|].
  destruct k as [|k'].
  - replace (wrap32 (a * fact 1)) with (wrap32 (1 * a))
      by (f_equal; cbn [fact]; lia).
    replace (s + 7 * Z.of_nat 1) with (s + 7) by lia.
    apply (fact_iteration n 1 a x dead s out rc);
      [apply word_1 | exact Wa | lia].
  - eapply (runs_to_trans 7 (7 * S k'));
      [ apply (fact_iteration n (Z.of_nat (S (S k'))) a x dead s out rc);
        auto; lia
      | | lia ].
    replace (Z.of_nat (S (S k')) - 1) with (Z.of_nat (S k')) by lia.
    replace (Z.of_nat (S k') =? 0) with false
      by (symmetry; apply Z.eqb_neq; lia).
    replace (wrap32 (a * fact (S (S k'))))
      with (wrap32 (wrap32 (Z.of_nat (S (S k')) * a) * fact (S k'))).
    + replace (s + 7 * Z.of_nat (S (S k')))
        with (s + 7 + 7 * Z.of_nat (S k')) by lia.
      apply IH; [lia | unfold word in *; lia | apply wrap32_range].
    + rewrite wrap32_mul_l. f_equal.
      change (fact (S (S k'))) with (Z.of_nat (S (S k')) * fact (S k')).
      ring.
Qed.

Lemma fact_epilogue n r y dead s out rc :
  word r ->
  runs_to 3
    (cfg 13 [0; r] (y :: dead) Cpu_Running s (Factorial n) out rc)
    (cfg 16 [0] (r :: y :: dead) Cpu_Halted (s + 3) (Factorial n)
       (out ++ [Printed (sint32 r)]) rc).
Proof.
  intros W. step fs_Swap. step fs_Print. step fs_Halt.
  apply runs_to_refl. f_equal. lia.
Qed.

Lemma factorial_run (n : nat) limit :
  (1 <= n)%nat -> Z.of_nat n < modulus -> 7 * Z.of_nat n + 6 <= limit ->
  exists m,
    Switched.main limit (Factorial (Z.of_nat n)) = (Val 0, m) /\
    stdout m = [Printed (sint32 (wrap32 (fact n)))] /\
    state m = Cpu_Halted /\ steps m = 7 * Z.of_nat n + 6 /\
    pc m = 16 /\ stack_dump m = [0].
Proof.
  intros N W L.
  assert (Wn : word (Z.of_nat n)) by (unfold word; lia).
  assert (R : exists m,
             runs_to (3 + (7 * n + 3)) (init (Factorial (Z.of_nat n))) m /\
             stdout m = [Printed (sint32 (wrap32 (fact n)))] /\
             state m = Cpu_Halted /\ steps m = 7 * Z.of_nat n + 6 /\
             pc m = 16 /\ stack_dump m = [0]).
  { eexists. split.
    - rewrite (init_cfg _ 3) by lia. cbn [repeat app].
      eapply runs_to_trans; [apply fact_prologue; exact Wn | | reflexivity].
      eapply runs_to_trans;
        [apply fact_loop; [exact N | exact Wn | apply word_1] | | reflexivity].
      apply fact_epilogue. apply wrap32_range.
    - rewrite stack_dump_cfg. cbn [cfg stdout state steps pc app].
      split; [|split; [reflexivity | split; [lia | split; reflexivity]]].
      do 3 f_equal. f_equal. lia. }
  destruct R as (m & R & O & Hs & N' & P & D).
  exists m. rewrite (runs_to_main _ _ _ limit R) by (congruence || lia).
  unfold exit_code. rewrite Hs. auto 10.
Qed.

End FactorialProgram.

(* ------------------------------------------------------------------ *)
(** ** The program of [main] *)

Section PrimesProgram.
Context `{platform}.
Hypothesis PS : 33 <= PROGRAM_SIZE.
Hypothesis CAP : 5 <= STACK_CAPACITY.

Ltac norm_pc :=
  match goal with
  | |- runs_to _ (cfg ?p ?l ?d ?st ?n ?prog ?o ?r) _ =>
      let p' := eval vm_compute in p in
      change (cfg p l d st n prog o r) with (cfg p' l d st n prog o r)
  end.

Ltac side :=
  first [ reflexivity
        | assumption
        | apply wrap32_range
        | cbn [List.length]; unfold word, modulus in *; lia ].

Ltac step lem :=
  eapply runs_to_S; [ eapply lem; side | reflexivity | norm_pc ].

Ltac done := apply runs_to_refl; f_equal; first [reflexivity | lia].

Ltac branch lem b :=
  eapply runs_to_S;
  [ eapply lem with (taken := b); side | reflexivity | norm_pc ].

Lemma sub_is_zero a b :
  word a -> word b -> (wrap32 (a - b) =? 0) = (a =? b).
Proof.
  unfold word, wrap32, modulus. intros Wa Wb.
  destruct (Z.eqb_spec a b) as [->|N].
  - now rewrite Z.sub_diag.
  - apply Z.eqb_neq. intros E.
    apply Z.mod_divide in E; [|lia]. destruct E as [q E]. nia.
Qed.

Variable nmax : Z.
Hypothesis Wn : word nmax.

(** The inner loop, from [back2] to [not_prime]: it prints [c] when none
    of the numbers from [d] to [c - 1] divides it. *)
Lemma primes_inner :
  forall (k : nat) d c y1 y2 rest s out rc,
    Z.of_nat k = c - d -> 2 <= d -> word c -> c < nmax ->
    exists j z1 z2 d',
      runs_to j
        (cfg 11 [d; c; nmax] (y1 :: y2 :: rest) Cpu_Running s (Primes nmax)
           out rc)
        (cfg 28 [d'; c; nmax] (z1 :: z2 :: rest) Cpu_Running
           (s + Z.of_nat j) (Primes nmax)
           (out ++ (if no_divisor k d c then [Printed (sint32 c)] else []))
           rc) /\
      Z.of_nat j <= 12 * Z.of_nat k + 12.
Proof.
  induction k as [|k IH]; intros d c y1 y2 rest s out rc K D Wc Cn.
  - assert (d = c) by lia. subst d. cbn [no_divisor].
    assert (T : (wrap32 (c - c) =? 0) = true) by now rewrite Z.sub_diag.
    exists 7%nat. do 3 eexists. split; [|lia].
    step fs_Over. step fs_Over. step fs_Swap. step fs_Sub.
    branch fs_JE true.
    step fs_Over. step fs_Print. done.
  - assert (Wd : word d) by (unfold word in *; lia).
    assert (Nz : (wrap32 (c - d) =? 0) = false)
      by (rewrite sub_is_zero by assumption; apply Z.eqb_neq; lia).
    assert (Wr : wrap32 (c mod d) = c mod d).
    { apply wrap32_small. pose proof (Z.mod_pos_bound c d).
      unfold word in *. lia. }
    cbn [no_divisor].
    destruct (Z.eqb_spec (c mod d) 0) as [Z0|N0]; cbn [negb andb].
    + exists 10%nat. do 3 eexists. split; [|lia].
      step fs_Over. step fs_Over. step fs_Swap. step fs_Sub.
      branch fs_JE false.
      step fs_Over. step fs_Over. step fs_Swap. step fs_Mod.
      branch fs_JE true.
      rewrite app_nil_r. done.
    + destruct (IH (d + 1) c (wrap32 (c mod d)) c rest (s + 12) out rc)
        as (j & z1 & z2 & d' & R & B); try lia; auto.
      exists (12 + j)%nat, z1, z2, d'. split; [|lia].
      replace (s + Z.of_nat (12 + j)) with (s + 12 + Z.of_nat j) by lia.
      refine (runs_to_trans 12 j _ _ _ _ _ R eq_refl).
      step fs_Over. step fs_Over. step fs_Swap. step fs_Sub.
      branch fs_JE false.
      step fs_Over. step fs_Over. step fs_Swap. step fs_Mod.
      branch fs_JE false.
      step fs_Inc. step fs_Jump.
      apply runs_to_refl. f_equal; [|lia].
      f_equal. apply wrap32_small. unfold word in *. lia.
Qed.

(** The outer loop, from [back] to the cpu after [Halt]: it prints the
    numbers from [c] to [nmax - 1] that [is_prime] accepts. *)
Lemma primes_outer :
  forall (k : nat) c x1 x2 x3 rest s out rc,
    Z.of_nat k = nmax - c -> 2 <= c ->
    exists j y1 y2 y3,
      runs_to j
        (cfg 4 [c; nmax] (x1 :: x2 :: x3 :: rest) Cpu_Running s
           (Primes nmax) out rc)
        (cfg 33 [nmax; nmax] (y1 :: y2 :: y3 :: rest) Cpu_Halted
           (s + Z.of_nat j) (Primes nmax)
           (out ++ printed (filter is_prime (numbers_from k c))) rc) /\
      Z.of_nat j <= 12 * Z.of_nat k * nmax + 5.
Proof.
  induction k as [|k IH]; intros c x1 x2 x3 rest s out rc K C.
  - assert (c = nmax) by lia. subst c.
    assert (T : (wrap32 (nmax - nmax) =? 0) = true) by now rewrite Z.sub_diag.
    exists 5%nat. do 3 eexists. split; [|lia].
    step fs_Over. step fs_Over. step fs_Sub. branch fs_JE true.
    step fs_Halt. cbn [numbers_from filter printed map]. rewrite app_nil_r.
    done.
  - assert (Wc : word c) by (unfold word in *; lia).
    assert (Nz : (wrap32 (c - nmax) =? 0) = false)
      by (rewrite sub_is_zero by assumption; apply Z.eqb_neq; lia).
    destruct (primes_inner (Z.to_nat (c - 2)) 2 c c x3 rest (s + 5) out rc)
      as (j1 & z1 & z2 & d' & R1 & B1); try lia; auto.
    fold (is_prime c) in R1.
    destruct (IH (c + 1) d' z1 z2 rest (s + 5 + Z.of_nat j1 + 3)
                (out ++ (if is_prime c then [Printed (sint32 c)] else []))
                rc) as (j2 & y1 & y2 & y3 & R2 & B2); try lia.
    exists (5 + (j1 + (3 + j2)))%nat, y1, y2, y3. split; [|lia].
    replace (s + Z.of_nat (5 + (j1 + (3 + j2))))
      with (s + 5 + Z.of_nat j1 + 3 + Z.of_nat j2) by lia.
    replace (out ++ printed (filter is_prime (numbers_from (S k) c)))
      with ((out ++ (if is_prime c then [Printed (sint32 c)] else [])) ++
            printed (filter is_prime (numbers_from k (c + 1))))
      by (cbn [numbers_from filter]; rewrite <- app_assoc;
          now destruct (is_prime c)).
    refine (runs_to_trans 5 (j1 + (3 + j2)) _ _ _ _ _
              (runs_to_trans j1 (3 + j2) _ _ _ _ R1
                 (runs_to_trans 3 j2 _ _ _ _ _ R2 eq_refl) eq_refl) eq_refl).
    + step fs_Over. step fs_Over. step fs_Sub. branch fs_JE false.
      step fs_Push. change (array_get (9 + 1) (Primes nmax)) with 2.
      apply runs_to_refl. f_equal. lia.
    + step fs_Drop. step fs_Inc. step fs_Jump.
      apply runs_to_refl. f_equal; [|lia].
      f_equal. apply wrap32_small. unfold word in *. lia.
Qed.

Lemma primes_run limit :
  2 <= nmax -> 12 * nmax * nmax <= limit ->
  exists m,
    Switched.main limit (Primes nmax) = (Val 0, m) /\
    state m = Cpu_Halted /\
    stdout m =
    printed (filter is_prime (numbers_from (Z.to_nat (nmax - 2)) 2)) /\
    pc m = 33 /\ stack_dump m = [nmax; nmax].
Proof.
  intros N L.
  destruct (primes_outer (Z.to_nat (nmax - 2)) 2 0 0 0
              (repeat 0 (Z.to_nat STACK_CAPACITY - 5)) 2 [] O)
    as (j & y1 & y2 & y3 & R & B); try lia.
  assert (R' : runs_to (2 + j) (init (Primes nmax))
                 (cfg 33 [nmax; nmax]
                    (y1 :: y2 :: y3 :: repeat 0 (Z.to_nat STACK_CAPACITY - 5))
                    Cpu_Halted (2 + Z.of_nat j) (Primes nmax)
                    ([] ++ printed (filter is_prime
                                      (numbers_from (Z.to_nat (nmax - 2)) 2)))
                    O)).
  { rewrite (init_cfg _ 5) by lia. cbn [repeat app].
    refine (runs_to_trans 2 j _ _ _ _ _ R eq_refl).
    step fs_Push. step fs_Push.
    change (array_get (2 + 1) (Primes nmax)) with 2.
    change (array_get (0 + 1) (Primes nmax)) with (wrap32 nmax).
    rewrite (wrap32_small nmax Wn). now apply runs_to_refl. }
  eexists. rewrite (runs_to_main _ _ _ limit R') by (discriminate || nia).
  rewrite stack_dump_cfg. now repeat split.
Qed.

End PrimesProgram.

(* ------------------------------------------------------------------ *)
(** ** What the sample programs compute, under both engines *)

Section Programs.
Context `{platform}.

Lemma no_divisor_spec k :
  forall d c,
    no_divisor k d c = true <->
    (forall e, d <= e < d + Z.of_nat k -> c mod e <> 0).
Proof.
  induction k as [|k IH]; intros d c; cbn [no_divisor].
  - split; [intros _ e E; lia | reflexivity].
  - rewrite andb_true_iff, negb_true_iff, Z.eqb_neq, IH. split.
    + intros [N A] e E. destruct (Z.eq_dec e d) as [->|D]; [exact N|].
      apply A. lia.
    + intros A. split; [apply A; lia|]. intros e E. apply A. lia.
Qed.

Lemma is_prime_correct c : 2 <= c -> (is_prime c = true <-> Z.prime c).
Proof.
  intros C. unfold is_prime. rewrite no_divisor_spec.
  unfold Z.prime. split.
  - intros A. split; [lia|]. intros e E D.
    apply (A e); [lia|]. apply Z.mod_divide; [lia | exact D].
  - intros [_ A] e E M. apply (A e); [lia|].
    apply Z.mod_divide; [lia | exact M].
Qed.

Lemma in_numbers_from k :
  forall c v, In v (numbers_from k c) <-> c <= v < c + Z.of_nat k.
Proof.
  induction k as [|k IH]; intros c v; cbn [numbers_from In].
  - split; [intros [] | lia].
  - rewrite IH. lia.
Qed.

(** X17.  [Factorial] with [n] for its first immediate, [n] at least 1
    and a 32-bit word, run with a step limit of at least [7 n + 6] under
    either engine, makes [7 n + 6] steps, prints [n!] reduced to 32 bits
    as a signed number, prints nothing else and ends in [Cpu_Halted] with
    exit code 0, the program counter at 16 and the single value 0 on the
    stack. *)
Theorem factorial_general (n : nat) limit :
  16 <= PROGRAM_SIZE -> 3 <= STACK_CAPACITY ->
  (1 <= n)%nat -> Z.of_nat n < modulus -> 7 * Z.of_nat n + 6 <= limit ->
  exists ms mt,
    Switched.main limit (Factorial (Z.of_nat n)) = (Val 0, ms) /\
    Threaded.main limit (Factorial (Z.of_nat n)) = (Val 0, mt) /\
    stdout ms = [Printed (sint32 (wrap32 (fact n)))] /\
    stdout mt = stdout ms /\
    state ms = Cpu_Halted /\ state mt = Cpu_Halted /\
    steps ms = 7 * Z.of_nat n + 6 /\ steps mt = steps ms /\
    pc ms = 16 /\ pc mt = 16 /\
    stack_dump ms = [0] /\ stack_dump mt = [0].
Proof.
  intros PS C N W L.
  destruct (factorial_run PS C n limit N W L)
    as (m & E & O & Hs & K & P & D).
  destruct (engines_agree limit (Factorial (Z.of_nat n)))
    as (c & ms & mt & Es & Et & A & _); [lia|].
  rewrite E in Es. inversion Es; subst c ms. exists m, mt.
  pose proof (agree_dump _ _ A) as AD.
  destruct A as (_ & A1 & _ & _ & A2 & _ & A3).
  assert (NB : state m <> Cpu_Break) by congruence.
  destruct (A3 NB) as [A4 A5].
  repeat split; auto; congruence.
Qed.

(** X18.  [Primes] with [nmax] for its first immediate, [nmax] at least 2
    and a 32-bit word, run with a step limit of at least [12 nmax nmax]
    under either engine, ends in [Cpu_Halted] with exit code 0 and two
    copies of [nmax] on the stack, having printed, in increasing order and
    once each, the numbers from 2 to [nmax - 1] that no smaller number
    from 2 on divides, and nothing else; these are the prime numbers below
    [nmax]. *)
Theorem primes_general nmax limit :
  33 <= PROGRAM_SIZE -> 5 <= STACK_CAPACITY ->
  2 <= nmax < modulus -> 12 * nmax * nmax <= limit ->
  let found := filter is_prime (numbers_from (Z.to_nat (nmax - 2)) 2) in
  (exists ms mt,
     Switched.main limit (Primes nmax) = (Val 0, ms) /\
     Threaded.main limit (Primes nmax) = (Val 0, mt) /\
     state ms = Cpu_Halted /\ state mt = Cpu_Halted /\
     stdout ms = printed found /\ stdout mt = printed found /\
     stack_dump ms = [nmax; nmax] /\ stack_dump mt = [nmax; nmax]) /\
  (forall c, In c found <-> 2 <= c < nmax /\ Z.prime c).
Proof.
  intros PS C N L found. split.
  - assert (W : word nmax) by (unfold word; lia).
    destruct (primes_run PS C nmax W limit) as (m & E & Hs & O & P & D);
      [lia | exact L |].
    destruct (engines_agree limit (Primes nmax))
      as (c & ms & mt & Es & Et & A & _); [nia|].
    rewrite E in Es. inversion Es; subst c ms. exists m, mt.
    pose proof (agree_dump _ _ A) as AD.
    destruct A as (_ & A1 & _ & _ & A2 & _). unfold found.
    repeat split; auto; congruence.
  - intros c. unfold found. rewrite filter_In, in_numbers_from. split.
    + intros [R P]. split; [lia|]. apply is_prime_correct; [lia | exact P].
    + intros [R P]. split; [lia|]. apply is_prime_correct; [lia | exact P].
Qed.

End Programs.

(* ------------------------------------------------------------------ *)
(** ** The statements above at concrete inputs, on [small_platform] *)

Lemma arith_step_witness :
  is_arith Instr_Sub = true /\
  0 <= 0 < @PROGRAM_SIZE small_platform /\
  array_get 0 (words [code Instr_Sub]) = code Instr_Sub /\
  Z.of_nat (List.length (@nil Z)) + 2 <= @STACK_CAPACITY small_platform /\
  @full_step small_platform
    (cfg 0 [7; 3] [0] Cpu_Running 0 (words [code Instr_Sub]) [] O)
    (cfg 1 [4] [7; 0] Cpu_Running 1 (words [code Instr_Sub]) [] O).
Proof.
  assert (H1 : is_arith Instr_Sub = true) by reflexivity.
  assert (H2 : 0 <= 0 < @PROGRAM_SIZE small_platform) by (cbn; lia).
  assert (H3 : array_get 0 (words [code Instr_Sub]) = code Instr_Sub)
    by reflexivity.
  assert (H4 : Z.of_nat (List.length (@nil Z)) + 2
               <= @STACK_CAPACITY small_platform) by (cbn; lia).
  repeat (split; [assumption|]).
  exact (@arith_step small_platform 0 [] [0] 0 (words [code Instr_Sub]) [] O
           Instr_Sub 7 3 H1 H2 H3 H4).
Defined.

Lemma shuffle_step_witness :
  0 <= 0 < @PROGRAM_SIZE small_platform /\ word 7 /\ word 3 /\
  @full_step small_platform
    (cfg 0 [7; 3] [0] Cpu_Running 0 (words [code Instr_Swap]) [] O)
    (cfg 1 [3; 7] [0] Cpu_Running 1 (words [code Instr_Swap]) [] O).
Proof.
  assert (H1 : 0 <= 0 < @PROGRAM_SIZE small_platform) by (cbn; lia).
  assert (H2 : word 7) by (unfold word, modulus; lia).
  assert (H3 : word 3) by (unfold word, modulus; lia).
  assert (H4 : Z.of_nat (List.length (@nil Z)) + 2
               <= @STACK_CAPACITY small_platform) by (cbn; lia).
  repeat (split; [assumption|]).
  exact (proj1 (@shuffle_step small_platform 0 [] [0] 0
                  (words [code Instr_Swap]) [] O 7 3 0 H1 H2 H3)
           eq_refl H4).
Defined.

Lemma inc_dec_step_witness :
  0 <= 0 < @PROGRAM_SIZE small_platform /\
  Z.of_nat (List.length (@nil Z)) + 1 <= @STACK_CAPACITY small_platform /\
  @full_step small_platform
    (cfg 0 [0] [] Cpu_Running 0 (words [code Instr_Dec]) [] O)
    (cfg 1 [4294967295] [] Cpu_Running 1 (words [code Instr_Dec]) [] O).
Proof.
  assert (H1 : 0 <= 0 < @PROGRAM_SIZE small_platform) by (cbn; lia).
  assert (H2 : Z.of_nat (List.length (@nil Z)) + 1
               <= @STACK_CAPACITY small_platform) by (cbn; lia).
  repeat (split; [assumption|]).
  exact (proj1 (proj2 (@inc_dec_step small_platform 0 [] [] 0
                         (words [code Instr_Dec]) [] O 0 H1 H2))
           eq_refl).
Defined.

Lemma push_step_witness :
  0 <= 0 /\ 0 + 1 < @PROGRAM_SIZE small_platform /\ 0 + 1 < modulus /\
  array_get 0 (words [code Instr_Push; 42]) = code Instr_Push /\
  word (array_get (0 + 1) (words [code Instr_Push; 42])) /\
  Z.of_nat (List.length (@nil Z)) < @STACK_CAPACITY small_platform /\
  @full_step small_platform
    (cfg 0 [] [0] Cpu_Running 0 (words [code Instr_Push; 42]) [] O)
    (cfg 2 [42] [] Cpu_Running 1 (words [code Instr_Push; 42]) [] O).
Proof.
  assert (H1 : 0 <= 0) by lia.
  assert (H2 : 0 + 1 < @PROGRAM_SIZE small_platform) by (cbn; lia).
  assert (H3 : 0 + 1 < modulus) by (unfold modulus; lia).
  assert (H4 : array_get 0 (words [code Instr_Push; 42]) = code Instr_Push)
    by reflexivity.
  assert (H5 : word (array_get (0 + 1) (words [code Instr_Push; 42])))
    by (vm_compute; split; [discriminate | reflexivity]).
  assert (H6 : Z.of_nat (List.length (@nil Z))
               < @STACK_CAPACITY small_platform) by (cbn; lia).
  repeat (split; [assumption|]).
  exact (@push_step small_platform 0 [] [] 0 (words [code Instr_Push; 42])
           [] O 0 H1 H2 H3 H4 H5 H6).
Defined.

Lemma print_step_witness :
  0 <= 0 < @PROGRAM_SIZE small_platform /\
  array_get 0 (words [code Instr_Print]) = code Instr_Print /\
  @full_step small_platform
    (cfg 0 [4294967295] [] Cpu_Running 0 (words [code Instr_Print]) [] O)
    (cfg 1 [] [4294967295] Cpu_Running 1 (words [code Instr_Print])
       [Printed (-1)] O).
Proof.
  assert (H1 : 0 <= 0 < @PROGRAM_SIZE small_platform) by (cbn; lia).
  assert (H2 : array_get 0 (words [code Instr_Print]) = code Instr_Print)
    by reflexivity.
  repeat (split; [assumption|]).
  exact (proj1 (@print_step small_platform 0 [] [] 0
                  (words [code Instr_Print]) [] O 4294967295 H1 H2)).
Defined.

Lemma conditional_jump_step_witness :
  0 <= 0 /\ 0 + 1 < @PROGRAM_SIZE small_platform /\ 0 + 1 < modulus /\
  array_get 0 (words [code Instr_JE; 5]) = code Instr_JE /\
  ((Instr_JE = Instr_JE /\ true = (0 =? 0)) \/
   (Instr_JE = Instr_JNE /\ true = negb (0 =? 0))) /\
  @full_step small_platform
    (cfg 0 [0] [] Cpu_Running 0 (words [code Instr_JE; 5]) [] O)
    (cfg 7 [] [0] Cpu_Running 1 (words [code Instr_JE; 5]) [] O).
Proof.
  assert (H1 : 0 <= 0) by lia.
  assert (H2 : 0 + 1 < @PROGRAM_SIZE small_platform) by (cbn; lia).
  assert (H3 : 0 + 1 < modulus) by (unfold modulus; lia).
  assert (H4 : array_get 0 (words [code Instr_JE; 5]) = code Instr_JE)
    by reflexivity.
  assert (H5 : (Instr_JE = Instr_JE /\ true = (0 =? 0)) \/
               (Instr_JE = Instr_JNE /\ true = negb (0 =? 0)))
    by (left; split; reflexivity).
  repeat (split; [assumption|]).
  exact (@conditional_jump_step small_platform 0 [] [] 0
           (words [code Instr_JE; 5]) [] O Instr_JE 0 true H1 H2 H3 H4 H5).
Defined.

Lemma drop_step_witness :
  0 <= 0 < @PROGRAM_SIZE small_platform /\
  array_get 0 (words [code Instr_Drop]) = code Instr_Drop /\
  @full_step small_platform
    (cfg 0 [] [0] Cpu_Running 0 (words [code Instr_Drop]) [] O)
    (cfg 1 [] [0] Cpu_Break 1 (words [code Instr_Drop])
       [Diag "Stack underflow"] O).
Proof.
  assert (H1 : 0 <= 0 < @PROGRAM_SIZE small_platform) by (cbn; lia).
  assert (H2 : array_get 0 (words [code Instr_Drop]) = code Instr_Drop)
    by reflexivity.
  repeat (split; [assumption|]).
  exact (@drop_step small_platform 0 [] [0] 0 (words [code Instr_Drop]) [] O
           H1 H2).
Defined.

Lemma rand_step_witness :
  0 <= 0 < @PROGRAM_SIZE small_platform /\
  array_get 0 (words [code Instr_Rand]) = code Instr_Rand /\
  Z.of_nat (List.length (@nil Z)) < @STACK_CAPACITY small_platform /\
  @full_step small_platform
    (cfg 0 [] [0] Cpu_Running 0 (words [code Instr_Rand]) [] 3%nat)
    (cfg 1 [3] [] Cpu_Running 1 (words [code Instr_Rand]) [] 4%nat).
Proof.
  assert (H1 : 0 <= 0 < @PROGRAM_SIZE small_platform) by (cbn; lia).
  assert (H2 : array_get 0 (words [code Instr_Rand]) = code Instr_Rand)
    by reflexivity.
  assert (H3 : Z.of_nat (List.length (@nil Z))
               < @STACK_CAPACITY small_platform) by (cbn; lia).
  repeat (split; [assumption|]).
  exact (@rand_step small_platform 0 [] 0 [] 0 (words [code Instr_Rand]) []
           3%nat H1 H2 H3).
Defined.

Lemma truncated_step_witness :
  0 <= 511 < @PROGRAM_SIZE small_platform /\
  @PROGRAM_SIZE small_platform <= wrap32 (511 + 1) /\
  array_get 511 (repeat 0 511 ++ [code Instr_Push]) = code Instr_Push /\
  two_words Instr_Push = true /\
  @full_step small_platform
    (cfg 511 [] [] Cpu_Running 0 (repeat 0 511 ++ [code Instr_Push]) [] O)
    (cfg 512 [] [] Cpu_Break 1 (repeat 0 511 ++ [code Instr_Push])
       [Diag "PC+1 out of bounds"] O).
Proof.
  assert (H1 : 0 <= 511 < @PROGRAM_SIZE small_platform) by (cbn; lia).
  assert (H2 : @PROGRAM_SIZE small_platform <= wrap32 (511 + 1))
    by (vm_compute; discriminate).
  assert (H3 : array_get 511 (repeat 0 511 ++ [code Instr_Push])
               = code Instr_Push) by reflexivity.
  assert (H4 : two_words Instr_Push = true) by reflexivity.
  repeat (split; [assumption|]).
  exact (@truncated_step small_platform Instr_Push 511 [] [] 0
           (repeat 0 511 ++ [code Instr_Push]) [] O H1 H2 H3 H4).
Defined.

Lemma overflow_steps_witness :
  0 <= 0 /\
  Z.of_nat (List.length (repeat 0 30)) + 2 = @STACK_CAPACITY small_platform /\
  word 7 /\ word 3 /\
  @full_step small_platform
    (cfg 0 (7 :: 3 :: repeat 0 30) [] Cpu_Running 0
       (words [code Instr_Dup]) [] O)
    (cfg 1 (7 :: 3 :: repeat 0 30) [] Cpu_Break 1
       (words [code Instr_Dup]) [Diag "Stack overflow"] O).
Proof.
  assert (H1 : 0 <= 0) by lia.
  assert (H2 : Z.of_nat (List.length (repeat 0 30)) + 2
               = @STACK_CAPACITY small_platform) by reflexivity.
  assert (H3 : word 7) by (unfold word, modulus; lia).
  assert (H4 : word 3) by (unfold word, modulus; lia).
  assert (H5 : 0 < @PROGRAM_SIZE small_platform) by reflexivity.
  repeat (split; [assumption|]).
  exact (proj1 (proj2 (@overflow_steps small_platform 0 7 3 (repeat 0 30) []
                         0 (words [code Instr_Dup]) [] O H1 H2 H3 H4))
           H5 eq_refl).
Defined.

Lemma nop_halt_break_step_witness :
  0 <= 3 < @PROGRAM_SIZE small_platform /\
  @full_step small_platform
    (cfg 3 [] [0] Cpu_Running 3 (words [code Instr_Nop; code Instr_Nop;
                                        code Instr_Nop]) [] O)
    (cfg 4 [] [0] Cpu_Break 4 (words [code Instr_Nop; code Instr_Nop;
                                      code Instr_Nop]) [] O).
Proof.
  assert (H1 : 0 <= 3 < @PROGRAM_SIZE small_platform) by (cbn; lia).
  split; [assumption|].
  exact (proj2 (proj2 (@nop_halt_break_step small_platform 3 [] [0] 3
                         (words [code Instr_Nop; code Instr_Nop;
                                 code Instr_Nop]) [] O H1))
           eq_refl).
Defined.

Lemma one_operand_underflow_witness :
  two_operands Instr_Add = true /\
  @handler small_platform Instr_Add
    {| opcode := code Instr_Add; length := 1; immediate := 0 |}
    (cfg 0 [7] [] Cpu_Running 0 (words [code Instr_Add]) [] O) =
  (Brk, cfg 0 [] [7] Cpu_Break 0 (words [code Instr_Add])
          [Diag "Stack underflow"] O).
Proof.
  assert (H1 : two_operands Instr_Add = true) by reflexivity.
  split; [assumption|].
  exact (@one_operand_underflow small_platform Instr_Add
           {| opcode := code Instr_Add; length := 1; immediate := 0 |}
           0 7 [] 0 (words [code Instr_Add]) [] O H1).
Defined.

Lemma halt_first_witness :
  0 < @PROGRAM_SIZE small_platform /\ 1 <= 10 /\
  array_get 0 (words [code Instr_Halt]) = code Instr_Halt /\
  exists m,
    @Switched.main small_platform 10 (words [code Instr_Halt]) = (Val 0, m) /\
    @Threaded.main small_platform 10 (words [code Instr_Halt]) = (Val 0, m) /\
    state m = Cpu_Halted /\ steps m = 1 /\ pc m = 1 /\ sp m = -1 /\
    stdout m = [].
Proof.
  assert (H1 : 0 < @PROGRAM_SIZE small_platform) by reflexivity.
  assert (H2 : 1 <= 10) by lia.
  assert (H3 : array_get 0 (words [code Instr_Halt]) = code Instr_Halt)
    by reflexivity.
  repeat (split; [assumption|]).
  exact (@halt_first small_platform 10 (words [code Instr_Halt]) H1 H2 H3).
Defined.

Lemma strategies_agree_witness :
  1 <= 1000 /\
  exists c ms mt,
    @Switched.main small_platform 1000 ModByZero = (Val c, ms) /\
    @Threaded.main small_platform 1000 ModByZero = (Val c, mt) /\
    state ms = state mt /\ sp ms = sp mt /\ stack ms = stack mt /\
    stdout ms = stdout mt /\ rand_calls ms = rand_calls mt /\
    (state ms <> Cpu_Break -> pc ms = pc mt /\ steps ms = steps mt).
Proof.
  assert (H1 : 1 <= 1000) by lia.
  split; [assumption|].
  exact (@strategies_agree small_platform 1000 ModByZero H1).
Defined.

Lemma step_budget_witness :
  0 <= 0 /\
  exists c ms mt,
    @Switched.main small_platform 0 (Factorial 5) = (Val c, ms) /\
    steps ms <= 0 /\ (state ms = Cpu_Running -> steps ms = 0) /\
    @Threaded.run small_platform 0 (@init small_platform (Factorial 5))
    = (Val tt, mt) /\
    steps mt <= Z.max 1 0.
Proof.
  assert (H1 : 0 <= 0) by lia.
  split; [assumption|].
  exact (@step_budget small_platform 0 (Factorial 5) H1).
Defined.

Lemma exit_code_iff_fault_witness :
  1 <= 1000 /\
  exists c ms mt,
    @Switched.main small_platform 1000 ModByZero = (Val c, ms) /\
    @Threaded.main small_platform 1000 ModByZero = (Val c, mt) /\
    state mt = state ms /\
    (state ms = Cpu_Break -> c = 1) /\
    (state ms <> Cpu_Break -> c = 0).
Proof.
  assert (H1 : 1 <= 1000) by lia.
  split; [assumption|].
  exact (@exit_code_iff_fault small_platform 1000 ModByZero H1).
Defined.

Lemma clean_exit_no_diagnostics_witness :
  1 <= 1000 /\
  exists c ms mt,
    @Switched.main small_platform 1000 (Factorial 5) = (Val c, ms) /\
    @Threaded.main small_platform 1000 (Factorial 5) = (Val c, mt) /\
    (c = 0 -> values_only (stdout ms) /\ values_only (stdout mt)).
Proof.
  assert (H1 : 1 <= 1000) by lia.
  split; [assumption|].
  exact (@clean_exit_no_diagnostics small_platform 1000 (Factorial 5) H1).
Defined.

Lemma factorial_general_witness :
  16 <= @PROGRAM_SIZE small_platform /\
  3 <= @STACK_CAPACITY small_platform /\
  (1 <= 12)%nat /\ Z.of_nat 12 < modulus /\ 7 * Z.of_nat 12 + 6 <= 90 /\
  exists ms mt,
    @Switched.main small_platform 90 (Factorial (Z.of_nat 12)) = (Val 0, ms) /\
    @Threaded.main small_platform 90 (Factorial (Z.of_nat 12)) = (Val 0, mt) /\
    stdout ms = [Printed (sint32 (wrap32 (fact 12)))] /\
    stdout mt = stdout ms /\
    state ms = Cpu_Halted /\ state mt = Cpu_Halted /\
    steps ms = 7 * Z.of_nat 12 + 6 /\ steps mt = steps ms /\
    pc ms = 16 /\ pc mt = 16 /\
    stack_dump ms = [0] /\ stack_dump mt = [0].
Proof.
  assert (H1 : 16 <= @PROGRAM_SIZE small_platform) by (cbn; lia).
  assert (H2 : 3 <= @STACK_CAPACITY small_platform) by (cbn; lia).
  assert (H3 : (1 <= 12)%nat) by lia.
  assert (H4 : Z.of_nat 12 < modulus) by (unfold modulus; lia).
  assert (H5 : 7 * Z.of_nat 12 + 6 <= 90) by lia.
  repeat (split; [assumption|]).
  exact (@factorial_general small_platform 12 90 H1 H2 H3 H4 H5).
Defined.

Lemma primes_general_witness :
  33 <= @PROGRAM_SIZE small_platform /\
  5 <= @STACK_CAPACITY small_platform /\
  2 <= 30 < modulus /\ 12 * 30 * 30 <= 10800 /\
  (exists ms mt,
     @Switched.main small_platform 10800 (Primes 30) = (Val 0, ms) /\
     @Threaded.main small_platform 10800 (Primes 30) = (Val 0, mt) /\
     state ms = Cpu_Halted /\ state mt = Cpu_Halted /\
     stdout ms = printed [2; 3; 5; 7; 11; 13; 17; 19; 23; 29] /\
     stdout mt = printed [2; 3; 5; 7; 11; 13; 17; 19; 23; 29] /\
     stack_dump ms = [30; 30] /\ stack_dump mt = [30; 30]).
Proof.
  assert (H1 : 33 <= @PROGRAM_SIZE small_platform) by (cbn; lia).
  assert (H2 : 5 <= @STACK_CAPACITY small_platform) by (cbn; lia).
  assert (H3 : 2 <= 30 < modulus) by (unfold modulus; lia).
  assert (H4 : 12 * 30 * 30 <= 10800) by lia.
  repeat (split; [assumption|]).
  exact (proj1 (@primes_general small_platform 30 10800 H1 H2 H3 H4)).
Defined.
